(** * Verification of [pkg/common/fileops/fix_fileops_mocks.py]

    The script reads [pkg/common/fileops/mocks.go], applies three
    [re.sub] substitutions in sequence and writes the result back.  This
    development embeds the three patterns, their replacement templates and
    the part of Python's [re] engine they exercise (literal text, greedy
    one-or-more repetition of a character class, capturing groups, an
    optional non-capturing group, leftmost non-overlapping substitution),
    and proves properties of the resulting text repair pass and of the
    line-end translation of the text-mode [open] calls around it.

    The file ends in the line [EOF < /dev/null], left over from the shell
    that wrote it.  Python rejects that line when it compiles the module,
    before any statement runs, so the development is about the three
    substitutions as they are written and gives no model of a run of the
    module. *)

From Stdlib Require Import Ascii String.
From Stdlib Require Import List NArith Bool Arith Lia.
Import ListNotations.

(** ** Text *)

(** A Python [str] is a sequence of Unicode code points. *)
Definition char := N.
Definition document := list char.

(** [chars "abc"] is the text of an ASCII literal. *)
Definition chars (s : string) : list char :=
  map N_of_ascii (list_ascii_of_string s).

Definition tab : char := 9%N.
Definition nl : char := 10%N.
Definition dq : char := 34%N.
Definition rparen : char := 41%N.

(** [\s] on a [str] pattern: the characters for which [str.isspace] holds. *)
Definition is_space (c : char) : bool :=
  ((9 <=? c) && (c <=? 13) || (28 <=? c) && (c <=? 32)
   || (c =? 133) || (c =? 160) || (c =? 5760)
   || (8192 <=? c) && (c <=? 8202)
   || (c =? 8232) || (c =? 8233) || (c =? 8239) || (c =? 8287)
   || (c =? 12288))%N.

(** ** Regular expressions *)

(** The character sets used by the script: [\s] and the negated
    single-character sets "anything but a double quote" and "anything
    but a closing parenthesis". *)
Inductive cset :=
| CSpace
| CNot (c : char).

Definition in_cset (cs : cset) (c : char) : bool :=
  match cs with
  | CSpace => is_space c
  | CNot x => negb (c =? x)%N
  end.

(** The fragment of the pattern language that the three patterns use. *)
Inductive regex :=
| Lit (l : list char)            (* literal text *)
| Plus (cs : cset)               (* greedy [cs+] *)
| Grp (i : nat) (r : regex)      (* capturing group number [i] *)
| Opt (r : regex)                (* greedy [(?:r)?] *)
| Cat (r1 r2 : regex).           (* [r1] followed by [r2] *)

(** Captured groups, most recent binding first. *)
Definition caps := list (nat * list char).

Fixpoint group (i : nat) (g : caps) : option (list char) :=
  match g with
  | [] => None
  | (j, w) :: g' => if Nat.eqb i j then Some w else group i g'
  end.

Definition set_group (i : nat) (w : list char) (g : caps) : caps := (i, w) :: g.

(** [strip_prefix l s] removes the literal [l] from the front of [s]. *)
Fixpoint strip_prefix (l s : list char) : option (list char) :=
  match l with
  | [] => Some s
  | x :: l' =>
      match s with
      | [] => None
      | y :: s' => if (x =? y)%N then strip_prefix l' s' else None
      end
  end.

(** Result of a successful match: the text after the match and the
    captured groups. *)
Definition mres := (list char * caps)%type.

(** Greedy repetition with backtracking: take one more character of the
    class when that leads to a match, otherwise stop here. *)
Fixpoint star (p : char -> bool) (k : list char -> option mres)
         (s : list char) : option mres :=
  match s with
  | c :: s' =>
      if p c then
        match star p k s' with
        | Some res => Some res
        | None => k s
        end
      else k s
  | [] => k []
  end.

(** Backtracking matcher in continuation-passing style: [m r s g k]
    matches [r] at the front of [s] and hands the remaining text and the
    captures to [k]; when [k] fails the next alternative of [r] is tried. *)
Fixpoint m (r : regex) (s : list char) (g : caps)
         (k : list char -> caps -> option mres) : option mres :=
  match r with
  | Lit l =>
      match strip_prefix l s with
      | Some s' => k s' g
      | None => None
      end
  | Plus cs =>
      match s with
      | c :: s' =>
          if in_cset cs c then star (in_cset cs) (fun s'' => k s'' g) s'
          else None
      | [] => None
      end
  | Grp i r' =>
      m r' s g
        (fun s' g' =>
           k s' (set_group i (firstn (length s - length s') s) g'))
  | Opt r' =>
      match m r' s g k with
      | Some res => Some res
      | None => k s g
      end
  | Cat r1 r2 => m r1 s g (fun s' g' => m r2 s' g' k)
  end.

(** [pattern.match] at the front of [s]. *)
Definition match_at (r : regex) (s : list char) : option mres :=
  m r s [] (fun s' g => Some (s', g)).

(** Number of capturing groups of a pattern. *)
Fixpoint ngroups (r : regex) : nat :=
  match r with
  | Lit _ | Plus _ => 0
  | Grp i r' => Nat.max i (ngroups r')
  | Opt r' => ngroups r'
  | Cat r1 r2 => Nat.max (ngroups r1) (ngroups r2)
  end.

(** ** Replacement templates *)

Inductive titem :=
| TLit (l : list char)   (* literal text, escapes such as [\t] resolved *)
| TRef (i : nat).        (* group reference [\i] *)

Definition template := list titem.

(** A group that did not take part in the match expands to the empty
    string (Python 3.5 and later). *)
Fixpoint expand (t : template) (g : caps) : list char :=
  match t with
  | [] => []
  | TLit l :: t' => l ++ expand t' g
  | TRef i :: t' =>
      match group i g with
      | Some w => w ++ expand t' g
      | None => expand t' g
      end
  end.

(** The template is compiled against the pattern before any matching:
    a reference to a group the pattern does not have is an error. *)
Fixpoint template_ok (n : nat) (t : template) : bool :=
  match t with
  | [] => true
  | TLit _ :: t' => template_ok n t'
  | TRef i :: t' => Nat.leb i n && template_ok n t'
  end.

(** ** [re.sub] *)

Inductive result (A : Type) :=
| Ok (a : A)
| ReError.   (* re.error: invalid group reference *)
Arguments Ok {A} a.
Arguments ReError {A}.

Definition bind {A B : Type} (x : result A) (f : A -> result B) : result B :=
  match x with
  | Ok a => f a
  | ReError => ReError
  end.

Notation "x <- e ;; k" := (bind e (fun x => k))
  (at level 61, e at next level, right associativity).

(** Left-to-right scan.  [skip] counts the characters still covered by
    the match found last; at every other position the pattern is tried,
    and a match is replaced by the expanded template.  Each of the three
    patterns starts with a mandatory character, so a match is never empty
    (lemma [match_at_shorter] below) and the special treatment [re.sub]
    gives to empty matches is not needed. *)
Fixpoint sub_scan (r : regex) (t : template) (skip : nat) (s : list char)
  : list char :=
  match s with
  | [] => []
  | c :: s' =>
      match skip with
      | S n => sub_scan r t n s'
      | O =>
          match match_at r s with
          | Some (rest, g) =>
              expand t g ++ sub_scan r t (length s' - length rest) s'
          | None => c :: sub_scan r t 0 s'
          end
      end
  end.

Definition sub (r : regex) (t : template) (s : document) : result document :=
  if template_ok (ngroups r) t then Ok (sub_scan r t 0 s) else ReError.

(** ** The three rules of the script *)

Definition call_head : list char :=
  chars "mockrec.RecordCall(mr.mock.ctrl, mr.mock,".

(** [return mockrec.RecordCall(mr.mock.ctrl, mr.mock, ] followed by the
    opening double quote of the name. *)
Definition ret_call : list char :=
  chars "return " ++ call_head ++ chars " " ++ [dq].

(** The duplicated head: [return mockrec.RecordCall(mr.mock.ctrl, mr.mock,],
    a line break, and the call head again up to the opening double quote. *)
Definition dup_call : list char :=
  chars "return " ++ call_head ++ [nl] ++ call_head ++ chars " " ++ [dq].

Definition noargs_head : list char :=
  chars "return mockrec.RecordNoArgsCall(mr.mock.ctrl, mr.mock, " ++ [dq].

(** The closing double quote of the name, the text [, reflect.TypeOf((] and
    the asterisk that opens the type. *)
Definition typeof : list char :=
  dq :: chars ", reflect.TypeOf((" ++ chars "*".
Definition nil_dot : list char := chars ")(nil).".

(** The part shared by the three patterns, from the name to the method.
    In the comments below <dq> stands for the double quote character and
    <star> for the asterisk:
    [([^<dq>]+)<dq>, reflect\.TypeOf\(\(\<star>([^)]+)\)\(nil\)\.([^)]+)]. *)
Definition name_type_method (tail : regex) : regex :=
  Cat (Grp 1 (Plus (CNot dq)))
    (Cat (Lit typeof)
       (Cat (Grp 2 (Plus (CNot rparen)))
          (Cat (Lit nil_dot)
             (Cat (Grp 3 (Plus (CNot rparen))) tail)))).

(** Pattern 1:
    [\s+return mockrec\.RecordCall\(mr\.mock\.ctrl, mr\.mock,\nmockrec\.RecordCall\(mr\.mock\.ctrl, mr\.mock, <dq>([^<dq>]+)<dq>, reflect\.TypeOf\(\(\<star>([^)]+)\)\(nil\)\.([^)]+)\)(?:, ([^)]+))?\)] *)
Definition pattern1 : regex :=
  Cat (Plus CSpace)
    (Cat (Lit dup_call)
       (name_type_method
          (Cat (Lit (chars ")"))
             (Cat (Opt (Cat (Lit (chars ", ")) (Grp 4 (Plus (CNot rparen)))))
                (Lit (chars ")")))))).

(** [\treturn mockrec.RecordCall(mr.mock.ctrl, mr.mock, <dq>\1<dq>, reflect.TypeOf((<star>\2)(nil).\3)\4)] *)
Definition repl1 : template :=
  [TLit (tab :: ret_call); TRef 1; TLit typeof; TRef 2; TLit nil_dot;
   TRef 3; TLit (chars ")"); TRef 4; TLit (chars ")")].

(** Pattern 2:
    [\treturn mockrec\.RecordCall\(mr\.mock\.ctrl, mr\.mock, <dq>([^<dq>]+)<dq>, reflect\.TypeOf\(\(\<star>([^)]+)\)\(nil\)\.([^)]+)\), ([^)]+)\)] *)
Definition pattern2 : regex :=
  Cat (Lit (tab :: ret_call))
    (name_type_method
       (Cat (Lit (chars "), "))
          (Cat (Grp 4 (Plus (CNot rparen))) (Lit (chars ")"))))).

(** [\treturn mockrec.RecordCall(mr.mock.ctrl, mr.mock, <dq>\1<dq>, reflect.TypeOf((<star>\2)(nil).\3), \4)] *)
Definition repl2 : template :=
  [TLit (tab :: ret_call); TRef 1; TLit typeof; TRef 2; TLit nil_dot;
   TRef 3; TLit (chars "), "); TRef 4; TLit (chars ")")].

(** Pattern 3:
    [\treturn mockrec\.RecordCall\(mr\.mock\.ctrl, mr\.mock, <dq>([^<dq>]+)<dq>, reflect\.TypeOf\(\(\<star>([^)]+)\)\(nil\)\.([^)]+)\)\)] *)
Definition pattern3 : regex :=
  Cat (Lit (tab :: ret_call))
    (name_type_method (Lit (chars "))"))).

(** [\treturn mockrec.RecordNoArgsCall(mr.mock.ctrl, mr.mock, <dq>\1<dq>, reflect.TypeOf((<star>\2)(nil).\3))] *)
Definition repl3 : template :=
  [TLit (tab :: noargs_head); TRef 1; TLit typeof; TRef 2; TLit nil_dot;
   TRef 3; TLit (chars "))")].

Definition rule1 : document -> result document := sub pattern1 repl1.
Definition rule2 : document -> result document := sub pattern2 repl2.
Definition rule3 : document -> result document := sub pattern3 repl3.

(** The three assignments to [content], in the order of the script. *)
Definition fix_mocks (content : document) : result document :=
  content <- rule1 content ;;
  content <- rule2 content ;;
  rule3 content.

(** ** The patterns and templates as the script writes them *)

(** [print_regex] and [print_template] give back the raw strings of the
    script; lemmas [pattern1_source] to [repl3_source] compare them with
    the text of the three [re.sub] calls. *)
Definition print_char (c : char) : list char :=
  if (c =? tab)%N then chars "\t"
  else if (c =? nl)%N then chars "\n"
  else if existsb (N.eqb c) (chars ".()*") then chars "\" ++ [c]
  else [c].

Definition print_cset (cs : cset) : list char :=
  match cs with
  | CSpace => chars "\s"
  | CNot c => chars "[^" ++ [c] ++ chars "]"
  end.

Fixpoint print_regex (r : regex) : list char :=
  match r with
  | Lit l => flat_map print_char l
  | Plus cs => print_cset cs ++ chars "+"
  | Grp _ r' => chars "(" ++ print_regex r' ++ chars ")"
  | Opt r' => chars "(?:" ++ print_regex r' ++ chars ")?"
  | Cat r1 r2 => print_regex r1 ++ print_regex r2
  end.

Definition print_titem (i : titem) : list char :=
  match i with
  | TLit l => flat_map (fun c => if (c =? tab)%N then chars "\t" else [c]) l
  | TRef n => chars "\" ++ [(48 + N.of_nat n)%N]
  end.

Definition print_template (t : template) : list char :=
  flat_map print_titem t.

(** ** Declarative reading of a pattern *)

(** [den r g w g'] : the pattern [r] can match exactly the word [w],
    turning the captures [g] into [g']. *)
Fixpoint den (r : regex) (g : caps) (w : list char) (g' : caps) : Prop :=
  match r with
  | Lit l => w = l /\ g' = g
  | Plus cs => w <> [] /\ forallb (in_cset cs) w = true /\ g' = g
  | Grp i r' => exists g0, den r' g w g0 /\ g' = set_group i w g0
  | Opt r' => den r' g w g' \/ (w = [] /\ g' = g)
  | Cat r1 r2 =>
      exists w1 w2 g1, w = w1 ++ w2 /\ den r1 g w1 g1 /\ den r2 g1 w2 g'
  end.

(** A pattern that cannot match the empty word. *)
Fixpoint nonnull (r : regex) : bool :=
  match r with
  | Lit l => match l with [] => false | _ => true end
  | Plus _ => true
  | Grp _ r' => nonnull r'
  | Opt _ => false
  | Cat r1 r2 => nonnull r1 || nonnull r2
  end.

(** [occurs r s] : the pattern matches at some position of [s]. *)
Fixpoint occurs (r : regex) (s : list char) : bool :=
  match match_at r s with
  | Some _ => true
  | None =>
      match s with
      | [] => false
      | _ :: s' => occurs r s'
      end
  end.

(** The number of matches the scan replaces, position by position as
    [sub_scan] goes: the count that [re.subn] returns beside the text. *)
Fixpoint count_scan (r : regex) (skip : nat) (s : list char) : nat :=
  match s with
  | [] => 0
  | _ :: s' =>
      match skip with
      | S n => count_scan r n s'
      | O =>
          match match_at r s with
          | Some (rest, _) => S (count_scan r (length s' - length rest) s')
          | None => count_scan r 0 s'
          end
      end
  end.

(** The number of line feeds in a text. *)
Definition newlines (s : list char) : nat := length (filter (N.eqb nl) s).

(** ** The shapes of text the rules deal with *)

(** A non-empty run of characters other than [c]: what [([^c]+)] captures
    when the next character of the pattern is [c]. *)
Definition field (c : char) (w : list char) : bool :=
  match w with
  | [] => false
  | _ => forallb (in_cset (CNot c)) w
  end.

(** The name [N], the text of [typeof], the type [T], the text of
    [nil_dot] and the method [M]. *)
Definition ntm (N T M : list char) : list char :=
  N ++ typeof ++ T ++ nil_dot ++ M.

(** The well-formed call without trailing argument, tab-indented. *)
Definition call_text (N T M : list char) : document :=
  tab :: ret_call ++ ntm N T M ++ chars "))".

(** The well-formed call with trailing argument [A], tab-indented. *)
Definition call_arg_text (N T M A : list char) : document :=
  tab :: ret_call ++ ntm N T M ++ chars "), " ++ A ++ chars ")".

(** The no-argument call target. *)
Definition noargs_text (N T M : list char) : document :=
  tab :: noargs_head ++ ntm N T M ++ chars "))".

(** The duplicated call after the whitespace [ws], with or without a
    trailing argument. *)
Definition dup_text (ws N T M : list char) (oa : option (list char))
  : document :=
  ws ++ dup_call ++ ntm N T M ++ chars ")"
     ++ match oa with Some A => chars ", " ++ A | None => [] end
     ++ chars ")".

(** What rule 1 writes for a duplicated call. *)
Definition joined_text (N T M : list char) (oa : option (list char))
  : document :=
  tab :: ret_call ++ ntm N T M ++ chars ")"
      ++ match oa with Some A => A | None => [] end
      ++ chars ")".

(** The groups captured on text of these shapes. *)
Definition caps_ntm (N T M : list char) : caps :=
  set_group 3 M (set_group 2 T (set_group 1 N [])).

Definition caps_dup (N T M : list char) (oa : option (list char)) : caps :=
  match oa with
  | Some A => set_group 4 A (caps_ntm N T M)
  | None => caps_ntm N T M
  end.

Definition arg_ok (oa : option (list char)) : bool :=
  match oa with
  | Some A => field rparen A
  | None => true
  end.

(** ** Matches that begin inside a stretch of text *)

(** [no_start r pre rest] : in the text [pre ++ rest] no match of [r]
    begins at a position of [pre]. *)
Fixpoint no_start (r : regex) (pre rest : list char) : bool :=
  match pre with
  | [] => true
  | _ :: pre' =>
      match match_at r (pre ++ rest) with
      | Some _ => false
      | None => no_start r pre' rest
      end
  end.

(** [contained r pre rest] : in the text [pre ++ rest] every match of [r]
    that begins at a position of [pre] also ends inside [pre]. *)
Fixpoint contained (r : regex) (pre rest : list char) : bool :=
  match pre with
  | [] => true
  | _ :: pre' =>
      match match_at r (pre ++ rest) with
      | Some (rest', _) => Nat.leb (length rest) (length rest')
      | None => true
      end && contained r pre' rest
  end.

(** ** Documents made of call statements *)

(** The statements the generator and the rules produce. *)
Inductive stmt :=
| Dup (ws N T M : list char) (oa : option (list char))
                                   (* duplicated call after whitespace *)
| Call (N T M : list char)         (* single call, no trailing argument *)
| CallArg (N T M A : list char)    (* single call with trailing argument *)
| Joined (N T M A : list char)     (* what rule 1 writes for an argument *)
| NoArgs (N T M : list char).      (* call of the no-argument target *)

Definition stmt_text (s : stmt) : document :=
  match s with
  | Dup ws N T M oa => dup_text ws N T M oa
  | Call N T M => call_text N T M
  | CallArg N T M A => call_arg_text N T M A
  | Joined N T M A => joined_text N T M (Some A)
  | NoArgs N T M => noargs_text N T M
  end.

(** A statement preceded by text. *)
Definition block := (list char * stmt)%type.

(** Blocks one after the other, followed by the text [fin]. *)
Fixpoint render (bs : list block) (fin : list char) : document :=
  match bs with
  | [] => fin
  | (t, s) :: bs' => t ++ stmt_text s ++ render bs' fin
  end.

Definition no_dq (w : list char) : bool := forallb (in_cset (CNot dq)) w.
Definition no_space (w : list char) : bool :=
  forallb (fun c => negb (is_space c)) w.

(** A name: not empty, no double quote, no whitespace. *)
Definition name_ok (N : list char) : bool := field dq N && no_space N.

(** A type, a method or an argument list: not empty, no closing
    parenthesis, no double quote. *)
Definition part_ok (w : list char) : bool := field rparen w && no_dq w.

Definition stmt_ok (s : stmt) : bool :=
  match s with
  | Dup ws N T M oa =>
      match ws with [] => false | _ => forallb is_space ws end
      && name_ok N && part_ok T && part_ok M
      && match oa with Some A => part_ok A | None => true end
  | Call N T M | NoArgs N T M => name_ok N && part_ok T && part_ok M
  | CallArg N T M A | Joined N T M A =>
      name_ok N && part_ok T && part_ok M && part_ok A
  end.

(** The text in front of a statement holds no double quote; in front of a
    duplicated call it does not end in whitespace, so that the whitespace
    of the statement is the whole run. *)
Definition block_ok (b : block) : bool :=
  let (t, s) := b in
  no_dq t && stmt_ok s
  && match s with
     | Dup _ _ _ _ _ => negb (is_space (last t dq))
     | _ => true
     end.

Definition doc_ok (bs : list block) (fin : list char) : bool :=
  forallb block_ok bs && no_dq fin.

(** What the rules make of a statement. *)
Definition step1 (s : stmt) : stmt :=
  match s with
  | Dup _ N T M None => Call N T M
  | Dup _ N T M (Some A) => Joined N T M A
  | _ => s
  end.

Definition step3 (s : stmt) : stmt :=
  match s with
  | Call N T M => NoArgs N T M
  | _ => s
  end.

Definition fix_stmt (s : stmt) : stmt := step3 (step1 s).

Definition on_stmt (f : stmt -> stmt) (b : block) : block :=
  let (t, s) := b in (t, f s).

(** The text in front of the opening double quote of a statement. *)
Definition head_call : list char :=
  tab :: chars "return " ++ call_head ++ chars " ".
Definition head_dup : list char :=
  chars "return " ++ call_head ++ [nl] ++ call_head ++ chars " ".
Definition head_noargs : list char :=
  tab :: chars "return mockrec.RecordNoArgsCall(mr.mock.ctrl, mr.mock, ".

Definition stmt_head (s : stmt) : list char :=
  match s with
  | Dup ws _ _ _ _ => ws ++ head_dup
  | Call _ _ _ | CallArg _ _ _ _ | Joined _ _ _ _ => head_call
  | NoArgs _ _ _ => head_noargs
  end.

Definition stmt_name (s : stmt) : list char :=
  match s with
  | Dup _ N _ _ _ | Call N _ _ | CallArg N _ _ _ | Joined N _ _ _
  | NoArgs N _ _ => N
  end.

(** The text after the closing double quote of the name, without its
    last character, which is a closing parenthesis. *)
Definition stmt_body (s : stmt) : list char :=
  match s with
  | Dup _ _ T M None | Call _ T M | NoArgs _ T M =>
      tl typeof ++ T ++ nil_dot ++ M ++ [rparen]
  | Dup _ _ T M (Some A) | CallArg _ T M A =>
      tl typeof ++ T ++ nil_dot ++ M ++ chars "), " ++ A
  | Joined _ T M A =>
      tl typeof ++ T ++ nil_dot ++ M ++ [rparen] ++ A
  end.

(** The text in front of the first double quote of [s], if there is
    one. *)
Fixpoint split_dq (s : list char) : option (list char) :=
  match s with
  | [] => None
  | c :: s' =>
      if (c =? dq)%N then Some []
      else option_map (cons c) (split_dq s')
  end.

(** ** Vocabulary for the statements *)

Definition starts_with (l s : list char) : bool :=
  match strip_prefix l s with
  | Some _ => true
  | None => false
  end.

(** [contains l s] : the text [l] occurs somewhere in [s]. *)
Fixpoint contains (l s : list char) : bool :=
  starts_with l s
  || match s with
     | [] => false
     | _ :: s' => contains l s'
     end.

Definition no_tab (s : list char) : bool :=
  forallb (fun c => negb (c =? tab)%N) s.

(** [pre] is empty or ends in a line break: what follows begins a
    line. *)
Definition line_start (pre : list char) : bool :=
  match pre with
  | [] => true
  | _ => (last pre dq =? nl)%N
  end.

Definition has_newline (s : list char) : bool :=
  existsb (fun c => (c =? nl)%N) s.

(** The three rules with rule 3 applied first and rule 1 last.  The
    script never does this; the definition only serves to compare the two
    orders. *)
Definition fix_mocks_swapped (content : document) : result document :=
  content <- rule3 content ;;
  content <- rule2 content ;;
  rule1 content.

(** ** Sample documents *)

Definition Foo : list char := chars "Foo".
Definition Bar : list char := chars "Bar".

(** The duplicated call for method [Foo] of type [Bar], not indented. *)
Definition foo_dup_line : document := dup_text [] Foo Bar Foo None.

(** The single call [return mockrec.RecordCall(...)] for [Foo], not
    indented. *)
Definition foo_call_line : document := tl (call_text Foo Bar Foo).

(** The duplicated call with trailing argument [arg0], tab-indented. *)
Definition foo_dup_arg : document :=
  dup_text [tab] Foo Bar Foo (Some (chars "arg0")).

(** A mock method as the generator leaves it: the duplicated call on
    its own line inside the function body. *)
Definition foo_method : document :=
  chars "func (mr *MockBarMockRecorder) Foo() *gomock.Call {" ++ [nl; tab]
  ++ chars "mr.mock.ctrl.T.Helper()".

(** The end of a function body. *)
Definition closing : list char := nl :: chars "}".

(** A document with a repaired call and nothing for the rules to do. *)
Definition repaired_doc : document :=
  foo_method ++ [nl] ++ noargs_text Foo Bar Foo.

(** The single call for [Foo], indented with four spaces. *)
Definition spaced_call : list char := chars "    " ++ foo_call_line.

(** A duplicated call for [Foo] followed by a single call for [Bar]. *)
Definition two_methods : document :=
  foo_method ++ dup_text [nl; tab] Foo Bar Foo None
  ++ nl :: call_text Bar Foo Bar ++ closing.

(** A name that itself holds the beginning of a call. *)
Definition odd_name : list char :=
  tl typeof ++ chars "X" ++ nil_dot ++ chars "Y))".

(** A call whose name is [odd_name], placed right after the head of
    another call: the two calls overlap. *)
Definition overlapping : document :=
  (tab :: ret_call) ++ call_text odd_name (chars "T") (chars "M").

(** A type that holds a tab and the beginning of a call. *)
Definition odd_type : list char :=
  chars "X" ++ tab :: ret_call ++ chars "Baz" ++ typeof ++ chars "Qux".

(** The single call for [Foo] with the type [odd_type], not indented. *)
Definition odd_type_line : document := tl (call_text Foo odd_type Foo).

(** A file with four mock methods: a duplicated call, a single call, a
    duplicated call with argument and a single call with argument. *)
Definition sample_blocks : list block :=
  [ (foo_method, Dup [nl; tab] Foo Bar Foo None);
    (closing ++ [nl; nl] ++ foo_method ++ [nl], Call Bar Foo Bar);
    (closing ++ [nl; nl] ++ foo_method,
     Dup [nl; tab] Foo Bar Foo (Some (chars "arg0, arg1")));
    (closing ++ [nl; nl] ++ foo_method ++ [nl],
     CallArg Foo Bar Foo (chars "arg0")) ].

(** The beginning of a generated file: an import with its quoted path
    and a mock method that hands the quoted method name to the
    controller. *)
Definition recorder_intro : document :=
  chars "import " ++ [dq] ++ chars "reflect" ++ [dq; nl; nl]
  ++ chars "func (m *MockBar) Foo() {" ++ [nl; tab]
  ++ chars "m.ctrl.Call(m, " ++ [dq] ++ Foo ++ [dq] ++ chars ")"
  ++ closing ++ [nl; nl].

(** A generated file whose recorder method holds the duplicated call. *)
Definition recorder_file : document :=
  recorder_intro ++ foo_method ++ dup_text [nl; tab] Foo Bar Foo None
  ++ closing.

(** The same file with the call of the no-argument target in place of
    the duplicated call and of the whitespace in front of it. *)
Definition recorder_file_fixed : document :=
  recorder_intro ++ foo_method ++ noargs_text Foo Bar Foo ++ closing.

(** ** Documents with free text between the statements *)

(** Text in which neither the literal head of pattern 3 nor the literal
    head of pattern 1 occurs, up to and including the opening double
    quote: whatever else the text holds, double quotes included, no
    match has its opening double quote there. *)
Definition text_free (t : list char) : bool :=
  negb (contains (tab :: ret_call) t) && negb (contains dup_call t).

(** A block whose text is free; as in [block_ok], the text in front of a
    duplicated call does not end in whitespace. *)
Definition block_free (b : block) : bool :=
  let (t, s) := b in
  text_free t && stmt_ok s
  && match s with
     | Dup _ _ _ _ _ => negb (is_space (last t dq))
     | _ => true
     end.

Definition doc_free (bs : list block) (fin : list char) : bool :=
  forallb block_free bs && text_free fin.

(** [recorder_file] as one block and the text that closes it. *)
Definition recorder_blocks : list block :=
  [ (recorder_intro ++ foo_method, Dup [nl; tab] Foo Bar Foo None) ].

(** ** Line ends in text mode *)





(** The literal text of a template. *)
Definition template_chars (t : template) : list char :=
  flat_map (fun i => match i with TLit l => l | TRef _ => [] end) t.


(** A statement that neither rule 1 nor rule 3 rewrites. *)
Definition settled (s : stmt) : bool :=
  match s with
  | Dup _ _ _ _ _ | Call _ _ _ => false
  | _ => true
  end.

(** ** The embedded patterns are those of the script *)

Section Source.

Lemma pattern1_source :
  print_regex pattern1 =
  chars "\s+return mockrec\.RecordCall\(mr\.mock\.ctrl, mr\.mock,\nmockrec\.RecordCall\(mr\.mock\.ctrl, mr\.mock, "
  ++ [dq] ++ chars "([^" ++ [dq] ++ chars "]+)" ++ [dq]
  ++ chars ", reflect\.TypeOf\(\(\*([^)]+)\)\(nil\)\.([^)]+)\)(?:, ([^)]+))?\)".
Proof. reflexivity. Qed.

Lemma repl1_source :
  print_template repl1 =
  chars "\treturn mockrec.RecordCall(mr.mock.ctrl, mr.mock, "
  ++ [dq] ++ chars "\1" ++ [dq] ++ chars ", reflect.TypeOf(("
  ++ chars "*\2)(nil).\3)\4)".
Proof. reflexivity. Qed.

Lemma pattern2_source :
  print_regex pattern2 =
  chars "\treturn mockrec\.RecordCall\(mr\.mock\.ctrl, mr\.mock, "
  ++ [dq] ++ chars "([^" ++ [dq] ++ chars "]+)" ++ [dq]
  ++ chars ", reflect\.TypeOf\(\(\*([^)]+)\)\(nil\)\.([^)]+)\), ([^)]+)\)".
Proof. reflexivity. Qed.

Lemma repl2_source :
  print_template repl2 =
  chars "\treturn mockrec.RecordCall(mr.mock.ctrl, mr.mock, "
  ++ [dq] ++ chars "\1" ++ [dq] ++ chars ", reflect.TypeOf(("
  ++ chars "*\2)(nil).\3), \4)".
Proof. reflexivity. Qed.

Lemma pattern3_source :
  print_regex pattern3 =
  chars "\treturn mockrec\.RecordCall\(mr\.mock\.ctrl, mr\.mock, "
  ++ [dq] ++ chars "([^" ++ [dq] ++ chars "]+)" ++ [dq]
  ++ chars ", reflect\.TypeOf\(\(\*([^)]+)\)\(nil\)\.([^)]+)\)\)".
Proof. reflexivity. Qed.

Lemma repl3_source :
  print_template repl3 =
  chars "\treturn mockrec.RecordNoArgsCall(mr.mock.ctrl, mr.mock, "
  ++ [dq] ++ chars "\1" ++ [dq] ++ chars ", reflect.TypeOf(("
  ++ chars "*\2)(nil).\3))".
Proof. reflexivity. Qed.

End Source.

(** ** Properties of the matcher *)

Section MatcherFacts.

Lemma strip_prefix_app (l s : list char) : strip_prefix l (l ++ s) = Some s.
Proof.
  induction l as [|x l IH]; simpl; [reflexivity|].
  now rewrite N.eqb_refl.
Qed.

Lemma strip_prefix_Some (l s s' : list char) :
  strip_prefix l s = Some s' -> s = l ++ s'.
Proof.
  revert s; induction l as [|x l IH]; intros s H; simpl in *.
  - now inversion H.
  - destruct s as [|y s]; [discriminate|].
    destruct (N.eqb_spec x y) as [->|]; [|discriminate].
    now rewrite (IH _ H).
Qed.

Lemma star_sound p k s res :
  star p k s = Some res ->
  exists w s', s = w ++ s' /\ forallb p w = true /\ k s' = Some res.
Proof.
  induction s as [|c s IH]; simpl; intros H.
  - exists [], []. auto.
  - destruct (p c) eqn:Hc.
    + destruct (star p k s) as [res'|] eqn:Hs.
      * destruct (IH H) as (w & s' & -> & Hw & Hk).
        exists (c :: w), s'. simpl. rewrite Hc, Hw. auto.
      * exists [], (c :: s). auto.
    + exists [], (c :: s). auto.
Qed.

Lemma firstn_consumed (w s' : list char) :
  firstn (length (w ++ s') - length s') (w ++ s') = w.
Proof.
  rewrite length_app, Nat.add_sub.
  rewrite firstn_app, Nat.sub_diag, firstn_all. simpl.
  apply app_nil_r.
Qed.

(** Whatever the matcher accepts is accepted by the declarative reading,
    and the continuation was run on the text that follows. *)
Lemma m_sound r : forall s g k res,
  m r s g k = Some res ->
  exists w s' g', s = w ++ s' /\ den r g w g' /\ k s' g' = Some res.
Proof.
  induction r as [l|cs|i r IH|r IH|r1 IH1 r2 IH2]; intros s g k res H;
    simpl in H.
  - destruct (strip_prefix l s) as [s'|] eqn:Hl; [|discriminate].
    apply strip_prefix_Some in Hl. exists l, s', g. simpl. auto.
  - destruct s as [|c s]; [discriminate|].
    destruct (in_cset cs c) eqn:Hc; [|discriminate].
    apply star_sound in H. destruct H as (w & s' & -> & Hw & Hk).
    exists (c :: w), s', g. simpl. rewrite Hc, Hw.
    repeat split; auto. discriminate.
  - apply IH in H. destruct H as (w & s' & g' & -> & Hd & Hk).
    rewrite firstn_consumed in Hk.
    exists w, s', (set_group i w g'). simpl. eauto.
  - destruct (m r s g k) as [res'|] eqn:Hm.
    + apply IH in Hm. destruct Hm as (w & s' & g' & -> & Hd & Hk).
      exists w, s', g'. simpl. inversion H; subst. auto.
    + exists [], s, g. simpl. auto.
  - apply IH1 in H. destruct H as (w1 & s1 & g1 & -> & Hd1 & Hk).
    apply IH2 in Hk. destruct Hk as (w2 & s2 & g2 & -> & Hd2 & Hk).
    exists (w1 ++ w2), s2, g2. rewrite <- app_assoc.
    repeat split; auto. simpl. eauto 6.
Qed.

Lemma match_at_sound r s rest g :
  match_at r s = Some (rest, g) ->
  exists w, s = w ++ rest /\ den r [] w g.
Proof.
  unfold match_at. intros H. apply m_sound in H.
  destruct H as (w & s' & g' & -> & Hd & Hk). inversion Hk; subst. eauto.
Qed.

Lemma den_nonnull r : forall g w g',
  nonnull r = true -> den r g w g' -> w <> [].
Proof.
  induction r as [l|cs|i r IH|r IH|r1 IH1 r2 IH2]; intros g w g' Hn Hd;
    simpl in *.
  - destruct Hd as [-> _]. destruct l; [discriminate|discriminate].
  - tauto.
  - destruct Hd as (g0 & Hd & _). eauto.
  - discriminate.
  - destruct Hd as (w1 & w2 & g1 & -> & Hd1 & Hd2).
    apply orb_true_iff in Hn. destruct Hn as [Hn|Hn].
    + specialize (IH1 _ _ _ Hn Hd1). destruct w1; [tauto|discriminate].
    + specialize (IH2 _ _ _ Hn Hd2).
      destruct w1; [assumption|discriminate].
Qed.

(** A match of a pattern that starts with a mandatory character consumes
    at least one character. *)
Lemma match_at_shorter r s rest g :
  nonnull r = true ->
  match_at r s = Some (rest, g) ->
  exists c w, s = c :: w ++ rest /\ den r [] (c :: w) g.
Proof.
  intros Hn H. destruct (match_at_sound _ _ _ _ H) as (w & -> & Hd).
  pose proof (den_nonnull _ _ _ _ Hn Hd) as Hw.
  destruct w as [|c w]; [tauto|].
  exists c, w. split; [reflexivity|assumption].
Qed.

End MatcherFacts.

(** ** Properties of the scan *)

Section ScanFacts.

Variables (r : regex) (t : template).

Lemma sub_scan_nil n : sub_scan r t n [] = [].
Proof. now destruct n. Qed.

Lemma sub_scan_skip n : forall s,
  sub_scan r t n s = sub_scan r t 0 (skipn n s).
Proof.
  induction n as [|n IH]; intros s; [reflexivity|].
  destruct s as [|c s]; [reflexivity|]. simpl. apply IH.
Qed.

(** After a match the scan continues on the text that follows it. *)
Lemma sub_scan_match s rest g :
  nonnull r = true ->
  match_at r s = Some (rest, g) ->
  sub_scan r t 0 s = expand t g ++ sub_scan r t 0 rest.
Proof.
  intros Hn H. destruct (match_at_shorter _ _ _ _ Hn H) as (c & w & -> & _).
  simpl. simpl in H. rewrite H. f_equal.
  rewrite sub_scan_skip. f_equal.
  rewrite length_app, Nat.add_sub. rewrite skipn_app, Nat.sub_diag.
  now rewrite skipn_all.
Qed.

Lemma sub_scan_nomatch c s :
  match_at r (c :: s) = None ->
  sub_scan r t 0 (c :: s) = c :: sub_scan r t 0 s.
Proof. intros H. simpl. simpl in H. now rewrite H. Qed.

(** [occurs] holds exactly when the pattern matches at the front of some
    suffix of the text. *)
Lemma occurs_spec s :
  occurs r s = true <->
  exists pre s' x, s = pre ++ s' /\ match_at r s' = Some x.
Proof.
  induction s as [|c s IH]; cbn [occurs].
  - destruct (match_at r []) as [x|] eqn:Hm.
    + split; [|reflexivity]. intros _. now exists [], [], x.
    + split; [discriminate|]. intros (pre & s' & x & E & Hx).
      symmetry in E. apply app_eq_nil in E. destruct E as [-> ->].
      congruence.
  - destruct (match_at r (c :: s)) as [x|] eqn:Hm.
    + split; [|reflexivity]. intros _. now exists [], (c :: s), x.
    + rewrite IH. split.
      * intros (pre & s' & x & -> & Hx). now exists (c :: pre), s', x.
      * intros (pre & s' & x & E & Hx). destruct pre as [|c' pre].
        -- simpl in E. subst s'. congruence.
        -- inversion E; subst. now exists pre, s', x.
Qed.

(** A pattern that occurs nowhere leaves the text as it is. *)
Lemma sub_scan_no_occurrence s :
  occurs r s = false -> sub_scan r t 0 s = s.
Proof.
  induction s as [|c s IH]; intros H; [reflexivity|].
  cbn [occurs] in H.
  destruct (match_at r (c :: s)) eqn:Hm; [discriminate|].
  rewrite sub_scan_nomatch by assumption. now rewrite IH.
Qed.

(** When every match is replaced by its own text, the scan is the
    identity. *)
Lemma sub_scan_same_text :
  nonnull r = true ->
  (forall g w g', den r g w g' -> g = [] -> expand t g' = w) ->
  forall s, sub_scan r t 0 s = s.
Proof.
  intros Hn Hsame s.
  remember (length s) as n eqn:Hlen. revert s Hlen.
  induction n as [n IH] using lt_wf_ind. intros s Hlen.
  destruct (match_at r s) as [[rest g]|] eqn:Hm.
  - rewrite (sub_scan_match _ _ _ Hn Hm).
    destruct (match_at_shorter _ _ _ _ Hn Hm) as (c & w & -> & Hd).
    rewrite (Hsame _ _ _ Hd eq_refl).
    rewrite (IH (length rest)); [reflexivity| |reflexivity].
    subst n. simpl. rewrite length_app. lia.
  - destruct s as [|c s]; [reflexivity|].
    rewrite sub_scan_nomatch by assumption. f_equal.
    apply (IH (length s)); [subst n; simpl; lia|reflexivity].
Qed.

End ScanFacts.

(** ** Running the matcher on text of a known shape *)

Section MatcherSteps.

Lemma star_exact p k w s :
  forallb p w = true ->
  match s with [] => True | x :: _ => p x = false end ->
  (forall x s', p x = true -> k (x :: s') = None) ->
  star p k (w ++ s) = k s.
Proof.
  intros Hw Hs Hk. induction w as [|c w IH]; simpl in *.
  - destruct s as [|x s]; [reflexivity|]. simpl. now rewrite Hs.
  - apply andb_true_iff in Hw. destruct Hw as [Hc Hw].
    rewrite Hc, (IH Hw).
    destruct (k s) eqn:E; [reflexivity|]. now apply Hk.
Qed.

(** Greedy [cs+] in front of something that cannot start with a
    character of [cs]: the whole run is taken, with nothing to backtrack
    into. *)
Lemma m_plus_exact cs w s g k :
  w <> [] ->
  forallb (in_cset cs) w = true ->
  match s with [] => True | x :: _ => in_cset cs x = false end ->
  (forall x s', in_cset cs x = true -> k (x :: s') g = None) ->
  m (Plus cs) (w ++ s) g k = k s g.
Proof.
  intros Hne Hw Hs Hk. destruct w as [|c w]; [tauto|]. simpl in *.
  apply andb_true_iff in Hw. destruct Hw as [Hc Hw]. rewrite Hc.
  apply star_exact; auto.
Qed.

Lemma m_grp i r s g k :
  m (Grp i r) s g k =
  m r s g (fun s' g' =>
             k s' (set_group i (firstn (length s - length s') s) g')).
Proof. reflexivity. Qed.

Lemma m_grp_plus_exact i cs w s g k :
  w <> [] ->
  forallb (in_cset cs) w = true ->
  match s with [] => True | x :: _ => in_cset cs x = false end ->
  (forall x s' g', in_cset cs x = true -> k (x :: s') g' = None) ->
  m (Grp i (Plus cs)) (w ++ s) g k = k s (set_group i w g).
Proof.
  intros Hne Hw Hs Hk. rewrite m_grp.
  rewrite m_plus_exact; auto.
  now rewrite firstn_consumed.
Qed.

Lemma m_lit l s g k : m (Lit l) (l ++ s) g k = k s g.
Proof. cbn [m]. now rewrite strip_prefix_app. Qed.

Lemma m_lit_reject c l x s g k :
  x <> c -> m (Lit (c :: l)) (x :: s) g k = None.
Proof.
  intros H. cbn [m strip_prefix].
  destruct (N.eqb_spec c x); [congruence|reflexivity].
Qed.

Lemma m_lit_nil c l g k : m (Lit (c :: l)) [] g k = None.
Proof. reflexivity. Qed.

Lemma m_cat r1 r2 s g k :
  m (Cat r1 r2) s g k = m r1 s g (fun s' g' => m r2 s' g' k).
Proof. reflexivity. Qed.

End MatcherSteps.

(** ** Facts about the three patterns *)

Section PatternFacts.

Lemma in_cset_not c x : in_cset (CNot c) x = true <-> x <> c.
Proof.
  simpl. rewrite negb_true_iff. split; intros H.
  - now apply N.eqb_neq.
  - now apply N.eqb_neq.
Qed.

Lemma in_cset_not_self c : in_cset (CNot c) c = false.
Proof. simpl. now rewrite N.eqb_refl. Qed.

Lemma field_spec c w :
  field c w = true <-> w <> [] /\ forallb (in_cset (CNot c)) w = true.
Proof.
  destruct w as [|x w]; simpl.
  - split; [discriminate|intros [H _]; tauto].
  - split; [intros H; split; [discriminate|assumption]|tauto].
Qed.

Lemma den_grp_field i c g w g' :
  den (Grp i (Plus (CNot c))) g w g' <->
  field c w = true /\ g' = set_group i w g.
Proof.
  rewrite field_spec. simpl. split.
  - intros (g0 & (Hne & Hw & ->) & ->). auto.
  - intros ((Hne & Hw) & ->). eauto.
Qed.

Lemma typeof_cons : typeof = dq :: tl typeof.
Proof. reflexivity. Qed.

Lemma nil_dot_cons : nil_dot = rparen :: tl nil_dot.
Proof. reflexivity. Qed.

(** What the shared part of the patterns accepts. *)
Lemma den_name_type_method tail g w g' :
  den (name_type_method tail) g w g' ->
  exists N T M wt,
    w = ntm N T M ++ wt /\
    field dq N = true /\ field rparen T = true /\ field rparen M = true /\
    den tail (set_group 3 M (set_group 2 T (set_group 1 N g))) wt g'.
Proof.
  unfold name_type_method. cbn [den].
  intros (N & w1 & g1 & -> & HN & l1 & w2 & g2 & -> & [-> ->]
          & T & w3 & g3 & -> & HT & l2 & w4 & g4 & -> & [-> ->]
          & M & wt & g5 & -> & HM & Hd).
  apply den_grp_field in HN, HT, HM.
  destruct HN as [HN ->], HT as [HT ->], HM as [HM ->].
  exists N, T, M, wt. unfold ntm. repeat rewrite <- app_assoc. auto.
Qed.

(** The shared part run on text of the expected shape: each greedy
    group stops at its delimiter and is never backtracked into. *)
Lemma m_name_type_method tail N T M s g k :
  field dq N = true -> field rparen T = true -> field rparen M = true ->
  (forall x s' g', x <> rparen -> m tail (x :: s') g' k = None) ->
  m (name_type_method tail) (ntm N T M ++ rparen :: s) g k =
  m tail (rparen :: s) (set_group 3 M (set_group 2 T (set_group 1 N g))) k.
Proof.
  intros HN HT HM Hk.
  apply field_spec in HN, HT, HM.
  destruct HN as [HN1 HN2], HT as [HT1 HT2], HM as [HM1 HM2].
  unfold name_type_method, ntm. repeat rewrite <- app_assoc.
  rewrite m_cat, m_grp_plus_exact;
    [|assumption|assumption
     |rewrite typeof_cons; apply in_cset_not_self
     |intros x s' g' Hx; apply in_cset_not in Hx;
      rewrite m_cat, typeof_cons; now apply m_lit_reject].
  rewrite m_cat, m_lit.
  rewrite m_cat, m_grp_plus_exact;
    [|assumption|assumption
     |rewrite nil_dot_cons; apply in_cset_not_self
     |intros x s' g' Hx; apply in_cset_not in Hx;
      rewrite m_cat, nil_dot_cons; now apply m_lit_reject].
  rewrite m_cat, m_lit.
  rewrite m_cat, m_grp_plus_exact;
    [reflexivity|assumption|assumption
     |apply in_cset_not_self
     |intros x s' g' Hx; apply in_cset_not in Hx; now apply Hk].
Qed.

Lemma nonnull_pattern1 : nonnull pattern1 = true.
Proof. reflexivity. Qed.
Lemma nonnull_pattern2 : nonnull pattern2 = true.
Proof. reflexivity. Qed.
Lemma nonnull_pattern3 : nonnull pattern3 = true.
Proof. reflexivity. Qed.

Lemma rule1_scan s : rule1 s = Ok (sub_scan pattern1 repl1 0 s).
Proof. reflexivity. Qed.
Lemma rule2_scan s : rule2 s = Ok (sub_scan pattern2 repl2 0 s).
Proof. reflexivity. Qed.
Lemma rule3_scan s : rule3 s = Ok (sub_scan pattern3 repl3 0 s).
Proof. reflexivity. Qed.

(** The text matched by pattern 2 is the text its template writes. *)
Lemma den_pattern2 w g :
  den pattern2 [] w g ->
  exists N T M A,
    field dq N = true /\ field rparen T = true /\
    field rparen M = true /\ field rparen A = true /\
    w = call_arg_text N T M A /\ expand repl2 g = w.
Proof.
  unfold pattern2. cbn [den].
  intros (l0 & w0 & g0 & -> & [-> ->] & Hd).
  apply den_name_type_method in Hd.
  destruct Hd as (N & T & M & wt & -> & HN & HT & HM & Hd).
  cbn [den] in Hd.
  destruct Hd as (l1 & w1 & g1 & -> & [-> ->] & wa & l2 & g2 & -> & HA
                  & [-> ->]).
  apply den_grp_field in HA. destruct HA as [HA ->].
  exists N, T, M, wa. repeat split; auto.
  unfold repl2, ntm, set_group. cbn [expand group Nat.eqb].
  repeat rewrite <- app_assoc. now rewrite app_nil_r.
Qed.

(** Rule 2 rewrites every match to itself. *)
Lemma rule2_identity s : rule2 s = Ok s.
Proof.
  rewrite rule2_scan. f_equal.
  apply sub_scan_same_text; [reflexivity|].
  intros g w g' Hd ->. apply den_pattern2 in Hd.
  now destruct Hd as (N & T & M & A & _ & _ & _ & _ & _ & H).
Qed.

End PatternFacts.

Section ScanThrough.

Variables (r : regex) (t : template).
Hypothesis r_nonnull : nonnull r = true.

Lemma no_start_spec pre rest :
  no_start r pre rest = true <->
  forall p1 p2, pre = p1 ++ p2 -> p2 <> [] -> match_at r (p2 ++ rest) = None.
Proof.
  induction pre as [|c pre IH]; cbn [no_start].
  - split; [|reflexivity]. intros _ p1 p2 H Hne.
    symmetry in H. apply app_eq_nil in H. tauto.
  - split.
    + intros H p1 p2 E Hne.
      destruct (match_at r ((c :: pre) ++ rest)) eqn:Hm; [discriminate|].
      destruct p1 as [|c1 p1]; simpl in E.
      * now subst p2.
      * inversion E; subst. rewrite IH in H. now apply (H p1).
    + intros H. rewrite (H [] (c :: pre) eq_refl) by discriminate.
      apply IH. intros p1 p2 -> Hne. now apply (H (c :: p1)).
Qed.

(** Text in which no match begins is copied as it is. *)
Lemma sub_scan_no_start pre rest :
  no_start r pre rest = true ->
  sub_scan r t 0 (pre ++ rest) = pre ++ sub_scan r t 0 rest.
Proof.
  induction pre as [|c pre IH]; cbn [no_start]; intros H; [reflexivity|].
  destruct (match_at r ((c :: pre) ++ rest)) eqn:Hm; [discriminate|].
  change ((c :: pre) ++ rest) with (c :: pre ++ rest) in *.
  rewrite sub_scan_nomatch by assumption. simpl. now rewrite IH.
Qed.

Lemma contained_suffix p1 p2 rest :
  contained r (p1 ++ p2) rest = true -> contained r p2 rest = true.
Proof.
  induction p1 as [|c p1 IH]; [trivial|]. cbn [contained app].
  intros H. apply andb_true_iff in H. now apply IH.
Qed.

Lemma app_eq_app_longer (a b x y : list char) :
  a ++ x = b ++ y -> length x <= length y ->
  exists q, y = q ++ x /\ a = b ++ q.
Proof.
  intros E Hlen. apply app_eq_app in E.
  destruct E as (l & [[-> ->]|[-> ->]]).
  - exists l. auto.
  - rewrite length_app in Hlen. destruct l; [|simpl in Hlen; lia].
    exists []. simpl. now rewrite !app_nil_r.
Qed.

(** The scan leaves [pre] when all matches that begin in [pre] end in
    it, and goes on with [rest] from its first character. *)
Lemma sub_scan_contained pre rest :
  contained r pre rest = true ->
  exists pre', sub_scan r t 0 (pre ++ rest) = pre' ++ sub_scan r t 0 rest.
Proof.
  remember (length pre) as n eqn:Hlen. revert pre Hlen.
  induction n as [n IH] using lt_wf_ind. intros pre Hlen H.
  destruct pre as [|c pre]; [now exists []|].
  cbn [contained] in H. apply andb_true_iff in H. destruct H as [H1 H2].
  destruct (match_at r ((c :: pre) ++ rest)) as [[rest' g]|] eqn:Hm.
  - apply Nat.leb_le in H1.
    rewrite (sub_scan_match _ _ _ _ _ r_nonnull Hm).
    destruct (match_at_shorter _ _ _ _ r_nonnull Hm) as (c' & w & E & _).
    change ((c :: pre) ++ rest) with (c :: pre ++ rest) in E.
    inversion E as [[Ec E']]. subst c'.
    destruct (app_eq_app_longer _ _ _ _ E' H1) as (q & -> & ->).
    apply contained_suffix in H2.
    destruct (IH (length q)) with (pre := q) as (pre' & Hq); auto.
    { subst n. simpl. rewrite length_app. lia. }
    exists (expand t g ++ pre'). now rewrite Hq, app_assoc.
  - change ((c :: pre) ++ rest) with (c :: pre ++ rest) in *.
    rewrite sub_scan_nomatch by assumption.
    destruct (IH (length pre)) with (pre := pre) as (pre' & Hq); auto.
    { subst n. simpl. lia. }
    exists (c :: pre'). now rewrite Hq.
Qed.

End ScanThrough.

(** ** The rules on text of the expected shape *)

Section RuleSteps.

Variables N T M : list char.
Hypothesis HN : field dq N = true.
Hypothesis HT : field rparen T = true.
Hypothesis HM : field rparen M = true.

(** Pattern 3 matches the call without trailing argument. *)
Lemma match_pattern3_call post :
  match_at pattern3 (call_text N T M ++ post) = Some (post, caps_ntm N T M).
Proof.
  unfold match_at, pattern3, call_text.
  change (chars "))") with [rparen; rparen].
  rewrite app_comm_cons. repeat rewrite <- app_assoc.
  change ([rparen; rparen] ++ post) with (rparen :: rparen :: post).
  rewrite m_cat, m_lit, m_name_type_method;
    [|assumption|assumption|assumption
     |intros x s' g' Hx; now apply m_lit_reject].
  change (rparen :: rparen :: post) with ([rparen; rparen] ++ post).
  now rewrite m_lit.
Qed.

Lemma expand_repl3 : expand repl3 (caps_ntm N T M) = noargs_text N T M.
Proof.
  unfold repl3, caps_ntm, noargs_text, ntm, set_group.
  cbn [expand group Nat.eqb].
  repeat rewrite <- app_assoc. now rewrite app_nil_r.
Qed.

(** Pattern 3 does not match the call with a trailing argument, nor
    anything else in which the method is not followed by two closing
    parentheses. *)
Lemma match_pattern3_other x post :
  x <> rparen ->
  match_at pattern3 ((tab :: ret_call) ++ ntm N T M ++ rparen :: x :: post)
  = None.
Proof.
  intros Hx. unfold match_at, pattern3.
  rewrite m_cat, m_lit, m_name_type_method;
    [|assumption|assumption|assumption
     |intros y s' g' Hy; now apply m_lit_reject].
  change (chars "))") with [rparen; rparen].
  cbn [m strip_prefix]. rewrite N.eqb_refl.
  destruct (N.eqb_spec rparen x); [congruence|reflexivity].
Qed.

Section Dup.

Variable ws : list char.
Hypothesis Hws : ws <> [].
Hypothesis Hsp : forallb is_space ws = true.

(** Pattern 1 matches the duplicated call, taking all the whitespace
    in front of it. *)
Lemma match_pattern1_dup oa post :
  arg_ok oa = true ->
  match_at pattern1 (dup_text ws N T M oa ++ post)
  = Some (post, caps_dup N T M oa).
Proof.
  intros Ha. unfold match_at, pattern1, dup_text.
  repeat rewrite <- app_assoc.
  rewrite m_cat, m_plus_exact;
    [|assumption|assumption|reflexivity
     |intros x s' Hx; rewrite m_cat; apply m_lit_reject;
      intros ->; discriminate].
  rewrite m_cat, m_lit.
  change (chars ")") with [rparen].
  change ([rparen] ++ ?X) with (rparen :: X).
  rewrite m_name_type_method;
    [|assumption|assumption|assumption
     |intros x s' g' Hx; rewrite m_cat; now apply m_lit_reject].
  rewrite m_cat.
  change (m (Lit [rparen]) (rparen :: ?X) ?g ?k)
    with (m (Lit [rparen]) ([rparen] ++ X) g k).
  rewrite m_lit, m_cat.
  destruct oa as [A|]; cbn [caps_dup arg_ok] in *.
  - apply field_spec in Ha. destruct Ha as [Ha1 Ha2].
    rewrite <- app_assoc.
    change (m (Opt ?r) ?s ?g ?k)
      with (match m r s g k with Some res => Some res | None => k s g end).
    rewrite m_cat, m_lit.
    rewrite m_grp_plus_exact;
      [|assumption|assumption|apply in_cset_not_self
       |intros x s' g' Hx; apply in_cset_not in Hx;
        now apply m_lit_reject].
    change (rparen :: post) with ([rparen] ++ post).
    now rewrite m_lit.
  - change (m (Opt ?r) ?s ?g ?k)
      with (match m r s g k with Some res => Some res | None => k s g end).
    rewrite m_cat. change ([] ++ [rparen] ++ post) with (rparen :: post).
    change (chars ", ") with [44%N; 32%N].
    rewrite m_lit_reject by discriminate.
    change (rparen :: post) with ([rparen] ++ post).
    now rewrite m_lit.
Qed.

Lemma expand_repl1 oa : expand repl1 (caps_dup N T M oa) = joined_text N T M oa.
Proof.
  unfold repl1, caps_dup, caps_ntm, joined_text, ntm, set_group.
  destruct oa as [A|]; cbn [expand group Nat.eqb];
    repeat rewrite <- app_assoc; now rewrite app_nil_r.
Qed.

End Dup.

End RuleSteps.

(** ** The text repair pass *)

Section Pass.

Lemma fix_mocks_scan d :
  fix_mocks d =
  Ok (sub_scan pattern3 repl3 0 (sub_scan pattern1 repl1 0 d)).
Proof.
  unfold fix_mocks. rewrite rule1_scan. cbn [bind].
  rewrite rule2_identity. cbn [bind]. apply rule3_scan.
Qed.

Lemma match_pattern3_head c s :
  c <> tab -> match_at pattern3 (c :: s) = None.
Proof.
  intros H. unfold match_at, pattern3. rewrite m_cat.
  now apply m_lit_reject.
Qed.

Lemma match_pattern2_head c s :
  c <> tab -> match_at pattern2 (c :: s) = None.
Proof.
  intros H. unfold match_at, pattern2. rewrite m_cat.
  now apply m_lit_reject.
Qed.

Lemma no_start_pattern3_no_tab line rest :
  no_tab line = true -> no_start pattern3 line rest = true.
Proof.
  induction line as [|c line IH]; [reflexivity|].
  cbn [no_tab forallb no_start]. intros H.
  apply andb_true_iff in H. destruct H as [Hc H].
  apply negb_true_iff, N.eqb_neq in Hc.
  change ((c :: line) ++ rest) with (c :: line ++ rest).
  rewrite match_pattern3_head by assumption. now apply IH.
Qed.

End Pass.

(** ** Where a match can begin *)

Section Anatomy.

Lemma split_dq_app a s :
  no_dq a = true -> split_dq (a ++ s) = option_map (app a) (split_dq s).
Proof.
  induction a as [|c a IH]; intros H.
  - simpl. now destruct (split_dq s).
  - cbn [no_dq forallb] in H. apply andb_true_iff in H. destruct H as [Hc H].
    apply in_cset_not, N.eqb_neq in Hc. cbn [app split_dq]. rewrite Hc.
    rewrite (IH H). now destruct (split_dq s).
Qed.

Lemma split_dq_head a s : no_dq a = true -> split_dq (a ++ dq :: s) = Some a.
Proof.
  intros H. rewrite (split_dq_app _ _ H). cbn [split_dq].
  rewrite N.eqb_refl. cbn [option_map]. now rewrite app_nil_r.
Qed.

Lemma split_dq_free s : no_dq s = true -> split_dq s = None.
Proof.
  intros H. rewrite <- (app_nil_r s). now rewrite (split_dq_app _ _ H).
Qed.

Lemma space_not_dq c : is_space c = true -> in_cset (CNot dq) c = true.
Proof.
  intros H. apply in_cset_not. intros ->. discriminate.
Qed.

Lemma spaces_no_dq ws : forallb is_space ws = true -> no_dq ws = true.
Proof.
  unfold no_dq. rewrite !forallb_forall. intros H c Hc.
  apply space_not_dq. now apply H.
Qed.

Lemma no_dq_app a b : no_dq (a ++ b) = no_dq a && no_dq b.
Proof. apply forallb_app. Qed.

Lemma stmt_text_split s :
  stmt_text s =
  stmt_head s ++ dq :: stmt_name s ++ dq :: stmt_body s ++ [rparen].
Proof.
  destruct s as [ws N T M [A|]|N T M|N T M A|N T M A|N T M];
    cbn [stmt_text stmt_head stmt_name stmt_body];
    unfold dup_text, call_text, call_arg_text, joined_text, noargs_text, ntm;
    repeat rewrite <- app_assoc; reflexivity.
Qed.

(** The text matched by pattern 3 is a call without trailing argument. *)
Lemma den_pattern3 w g :
  den pattern3 [] w g ->
  exists N T M,
    field dq N = true /\ field rparen T = true /\ field rparen M = true /\
    w = call_text N T M /\ g = caps_ntm N T M.
Proof.
  unfold pattern3. cbn [den].
  intros (l0 & w0 & g0 & -> & [-> ->] & Hd).
  apply den_name_type_method in Hd.
  destruct Hd as (N & T & M & wt & -> & HN & HT & HM & Hd).
  cbn [den] in Hd. destruct Hd as [-> ->].
  exists N, T, M. repeat split; auto.
Qed.

(** The text matched by pattern 1 is a duplicated call after
    whitespace. *)
Lemma den_pattern1 w g :
  den pattern1 [] w g ->
  exists ws N T M oa,
    ws <> [] /\ forallb is_space ws = true /\
    field dq N = true /\ field rparen T = true /\ field rparen M = true /\
    w = dup_text ws N T M oa.
Proof.
  unfold pattern1. cbn [den].
  intros (ws & w0 & g0 & -> & (Hne & Hws & ->)
          & l0 & w1 & g1 & -> & [-> ->] & Hd).
  apply den_name_type_method in Hd.
  destruct Hd as (N & T & M & wt & -> & HN & HT & HM & Hd).
  cbn [den] in Hd.
  destruct Hd as (l1 & w2 & g2 & -> & [-> ->] & wo & l2 & g3 & -> & Ho
                  & [-> ->]).
  destruct Ho as [(l3 & A & g4 & -> & [-> ->] & g5 & _ & _)|[-> ->]].
  - exists ws, N, T, M, (Some A). repeat split; auto.
  - exists ws, N, T, M, None. repeat split; auto.
Qed.

Lemma no_dq_head_call : no_dq head_call = true.
Proof. reflexivity. Qed.

Lemma no_dq_head_dup : no_dq head_dup = true.
Proof. reflexivity. Qed.

(** A match of pattern 3 begins with the head of a call, up to the first
    double quote of the text. *)
Lemma match3_split s x :
  match_at pattern3 s = Some x -> split_dq s = Some head_call.
Proof.
  destruct x as [rest g]. intros H.
  apply match_at_sound in H. destruct H as (w & -> & Hd).
  apply den_pattern3 in Hd. destruct Hd as (N & T & M & _ & _ & _ & -> & _).
  change (call_text N T M)
    with (head_call ++ dq :: ntm N T M ++ chars "))").
  rewrite <- app_assoc. apply split_dq_head, no_dq_head_call.
Qed.

(** A match of pattern 1 begins with whitespace and the duplicated head,
    up to the first double quote of the text. *)
Lemma match1_split s x :
  match_at pattern1 s = Some x ->
  exists ws,
    ws <> [] /\ forallb is_space ws = true /\
    split_dq s = Some (ws ++ head_dup).
Proof.
  destruct x as [rest g]. intros H.
  apply match_at_sound in H. destruct H as (w & -> & Hd).
  apply den_pattern1 in Hd.
  destruct Hd as (ws & N & T & M & oa & Hne & Hws & _ & _ & _ & ->).
  exists ws. split; [assumption|]. split; [assumption|].
  unfold dup_text.
  change dup_call with (head_dup ++ [dq]).
  repeat rewrite <- app_assoc. rewrite app_assoc.
  apply split_dq_head. rewrite no_dq_app, (spaces_no_dq _ Hws).
  apply no_dq_head_dup.
Qed.

End Anatomy.

Section NoStart.

Lemma no_start_app r a b rest :
  no_start r (a ++ b) rest = no_start r a (b ++ rest) && no_start r b rest.
Proof.
  induction a as [|c a IH]; [reflexivity|].
  cbn [no_start app]. rewrite <- app_assoc.
  change ((c :: a) ++ b ++ rest) with (c :: a ++ b ++ rest).
  destruct (match_at r (c :: a ++ b ++ rest)); [reflexivity|]. apply IH.
Qed.

Lemma match_pattern1_head c s :
  is_space c = false -> match_at pattern1 (c :: s) = None.
Proof.
  intros H. unfold match_at, pattern1. rewrite m_cat. cbn [m in_cset].
  now rewrite H.
Qed.

Lemma no_space_not_tab c : is_space c = false -> c <> tab.
Proof. intros H ->. discriminate. Qed.

(** Neither pattern begins at a character that is not whitespace. *)
Lemma no_start_no_space r w rest :
  r = pattern1 \/ r = pattern3 ->
  no_space w = true -> no_start r w rest = true.
Proof.
  intros Hr. induction w as [|c w IH]; [reflexivity|].
  cbn [no_space forallb no_start]. intros H.
  apply andb_true_iff in H. destruct H as [Hc H].
  apply negb_true_iff in Hc.
  change ((c :: w) ++ rest) with (c :: w ++ rest).
  destruct Hr as [-> | ->].
  - rewrite match_pattern1_head by assumption. now apply IH.
  - rewrite match_pattern3_head by now apply no_space_not_tab.
    now apply IH.
Qed.

Lemma suffix_no_dq p1 p2 : no_dq (p1 ++ p2) = true -> no_dq p2 = true.
Proof. rewrite no_dq_app. intros H. now apply andb_true_iff in H. Qed.

Lemma nonempty_ends (p2 : list char) :
  p2 <> [] -> p2 = removelast p2 ++ [last p2 dq].
Proof. apply app_removelast_last. Qed.

Lemma last_suffix (p1 p2 : list char) d :
  p2 <> [] -> last (p1 ++ p2) d = last p2 d.
Proof.
  intros H. induction p1 as [|c p1 IH]; [reflexivity|].
  cbn [app]. destruct (p1 ++ p2) eqn:E.
  - apply app_eq_nil in E. tauto.
  - exact IH.
Qed.

(** A suffix of text that ends in a closing parenthesis holds one. *)
Lemma suffix_has_rparen p1 p2 body :
  p1 ++ p2 = body ++ [rparen] -> p2 <> [] -> In rparen p2.
Proof.
  intros E Hne. rewrite (nonempty_ends p2 Hne) in E |- *.
  rewrite app_assoc in E. apply app_inj_tail in E. destruct E as [_ ->].
  apply in_or_app. right. now left.
Qed.

Lemma no_rparen_head_call : ~ In rparen head_call.
Proof.
  assert (H : forallb (in_cset (CNot rparen)) head_call = true)
    by reflexivity.
  rewrite forallb_forall in H. intros Hin. apply H in Hin.
  now rewrite in_cset_not_self in Hin.
Qed.

Lemma no_rparen_head_dup : ~ In rparen head_dup.
Proof.
  assert (H : forallb (in_cset (CNot rparen)) head_dup = true)
    by reflexivity.
  rewrite forallb_forall in H. intros Hin. apply H in Hin.
  now rewrite in_cset_not_self in Hin.
Qed.

Lemma no_rparen_spaces ws : forallb is_space ws = true -> ~ In rparen ws.
Proof.
  rewrite forallb_forall. intros H Hin. apply H in Hin. discriminate.
Qed.

(** No match of either pattern begins in text that runs up to a closing
    parenthesis without double quote: the text in front of the first
    double quote of a match holds no closing parenthesis. *)
Lemma no_start_body r body rest :
  r = pattern1 \/ r = pattern3 ->
  no_dq body = true -> no_start r (body ++ [rparen]) rest = true.
Proof.
  intros Hr Hb. apply no_start_spec. intros p1 p2 E Hne.
  destruct (match_at r (p2 ++ rest)) as [x|] eqn:Hm; [exfalso|reflexivity].
  assert (Hp2 : no_dq p2 = true).
  { apply (suffix_no_dq p1). rewrite <- E, no_dq_app, Hb. reflexivity. }
  assert (Hin : In rparen p2) by (symmetry in E; eauto using suffix_has_rparen).
  destruct Hr as [-> | ->].
  - apply match1_split in Hm. destruct Hm as (ws & _ & Hws & Hs).
    rewrite (split_dq_app _ _ Hp2) in Hs.
    destruct (split_dq rest) as [h|]; [|discriminate].
    cbn [option_map] in Hs. injection Hs as Hs.
    assert (Hin' : In rparen (ws ++ head_dup)).
    { rewrite <- Hs. apply in_or_app. now left. }
    apply in_app_or in Hin'. destruct Hin' as [Hin'|Hin'].
    + now apply (no_rparen_spaces ws Hws).
    + now apply no_rparen_head_dup.
  - apply match3_split in Hm.
    rewrite (split_dq_app _ _ Hp2) in Hm.
    destruct (split_dq rest) as [h|]; [|discriminate].
    cbn [option_map] in Hm. injection Hm as Hm.
    apply no_rparen_head_call. rewrite <- Hm. apply in_or_app. now left.
Qed.

(** No match begins in text without double quote that nothing
    follows. *)
Lemma no_start_final r fin :
  r = pattern1 \/ r = pattern3 ->
  no_dq fin = true -> no_start r fin [] = true.
Proof.
  intros Hr Hf. apply no_start_spec. intros p1 p2 -> Hne.
  apply suffix_no_dq in Hf. rewrite app_nil_r.
  destruct (match_at r p2) as [x|] eqn:Hm; [exfalso|reflexivity].
  destruct Hr as [-> | ->].
  - apply match1_split in Hm. destruct Hm as (ws & _ & _ & Hs).
    rewrite (split_dq_free _ Hf) in Hs. discriminate.
  - apply match3_split in Hm. rewrite (split_dq_free _ Hf) in Hm.
    discriminate.
Qed.

(** No match of pattern 3 begins in front of a head of 50 characters or
    more: the head of a match is shorter. *)
Lemma no_start3_long pre h X :
  no_dq pre = true -> no_dq h = true -> 50 <= length h ->
  no_start pattern3 pre (h ++ dq :: X) = true.
Proof.
  intros Hpre Hh Hlen. apply no_start_spec. intros p1 p2 -> Hne.
  apply suffix_no_dq in Hpre.
  destruct (match_at pattern3 (p2 ++ h ++ dq :: X)) as [x|] eqn:Hm;
    [exfalso|reflexivity].
  apply match3_split in Hm. rewrite app_assoc in Hm.
  rewrite split_dq_head in Hm by (rewrite no_dq_app, Hpre, Hh; reflexivity).
  injection Hm as Hm. apply (f_equal (@length char)) in Hm.
  rewrite length_app in Hm. change (length head_call) with 50 in Hm.
  destruct p2; [tauto|]. cbn [length] in Hm. lia.
Qed.

Lemma clash (a b c : list char) x y : a ++ x :: c = b ++ y :: c -> x = y.
Proof.
  intros E.
  change (a ++ [x] ++ c = b ++ [y] ++ c) in E.
  rewrite !app_assoc in E. apply app_inv_tail in E.
  now apply app_inj_tail in E.
Qed.

(** No match of pattern 1 begins in front of the head of a single call
    or of a no-argument call. *)
Lemma no_start1_single pre h X :
  h = head_call \/ h = head_noargs ->
  no_dq pre = true ->
  no_start pattern1 pre (h ++ dq :: X) = true.
Proof.
  intros Hh Hpre. apply no_start_spec. intros p1 p2 -> Hne.
  apply suffix_no_dq in Hpre.
  destruct (match_at pattern1 (p2 ++ h ++ dq :: X)) as [x|] eqn:Hm;
    [exfalso|reflexivity].
  apply match1_split in Hm. destruct Hm as (ws & _ & _ & Hs).
  rewrite app_assoc in Hs.
  rewrite split_dq_head in Hs
    by (rewrite no_dq_app, Hpre; destruct Hh as [-> | ->]; reflexivity).
  injection Hs as Hs. destruct Hh as [-> | ->].
  - change head_call
      with ((tab :: chars "return") ++ 32%N :: call_head ++ chars " ") in Hs.
    change head_dup
      with ((chars "return " ++ call_head) ++ nl :: call_head ++ chars " ")
      in Hs.
    rewrite !app_assoc in Hs. apply clash in Hs. discriminate.
  - change head_noargs
      with ((tab :: chars "return mockrec.RecordNoArg")
              ++ 115%N :: chars "Call(mr.mock.ctrl, mr.mock, ") in Hs.
    change head_dup
      with ((chars "return " ++ call_head ++ nl :: chars "mockrec.Recor")
              ++ 100%N :: chars "Call(mr.mock.ctrl, mr.mock, ") in Hs.
    rewrite !app_assoc in Hs. apply clash in Hs. discriminate.
Qed.

(** No match of pattern 1 begins in text that does not end in
    whitespace and is followed by the whitespace of a duplicated call. *)
Lemma no_start1_dup pre ws X :
  no_dq pre = true -> is_space (last pre dq) = false ->
  forallb is_space ws = true ->
  no_start pattern1 pre ((ws ++ head_dup) ++ dq :: X) = true.
Proof.
  intros Hpre Hlast Hws. apply no_start_spec. intros p1 p2 -> Hne.
  apply suffix_no_dq in Hpre. rewrite (last_suffix _ _ _ Hne) in Hlast.
  destruct (match_at pattern1 (p2 ++ (ws ++ head_dup) ++ dq :: X))
    as [x|] eqn:Hm; [exfalso|reflexivity].
  apply match1_split in Hm. destruct Hm as (ws' & _ & Hws' & Hs).
  rewrite app_assoc in Hs.
  rewrite split_dq_head in Hs
    by (rewrite !no_dq_app, Hpre, (spaces_no_dq _ Hws); reflexivity).
  injection Hs as Hs. rewrite app_assoc in Hs. apply app_inv_tail in Hs.
  rewrite <- Hs, forallb_app in Hws'.
  apply andb_true_iff in Hws'. destruct Hws' as [Hp2 _].
  rewrite (nonempty_ends p2 Hne), forallb_app in Hp2.
  apply andb_true_iff in Hp2. destruct Hp2 as [_ Hp2].
  cbn [forallb] in Hp2. rewrite Hlast in Hp2. discriminate.
Qed.

End NoStart.

(** ** The rules on documents made of call statements *)

Section Statements.

Ltac unpack :=
  repeat match goal with
         | H : _ && _ = true |- _ =>
             apply andb_true_iff in H; destruct H
         end.

Ltac flat :=
  repeat first [ progress change ((?x :: ?a) ++ ?b) with (x :: a ++ b)
               | rewrite <- app_assoc ].

Lemma no_start_cons r c pre rest :
  match_at r (c :: pre ++ rest) = None ->
  no_start r pre rest = true ->
  no_start r (c :: pre) rest = true.
Proof.
  intros H1 H2. cbn [no_start].
  change ((c :: pre) ++ rest) with (c :: pre ++ rest). now rewrite H1.
Qed.

Lemma stmt_ok_name s : stmt_ok s = true -> no_space (stmt_name s) = true.
Proof.
  destruct s as [ws N T M oa|N T M|N T M A|N T M A|N T M];
    cbn [stmt_ok stmt_name]; unfold name_ok; intros H; unpack; assumption.
Qed.

Lemma stmt_ok_body s : stmt_ok s = true -> no_dq (stmt_body s) = true.
Proof.
  destruct s as [ws N T M [A|]|N T M|N T M A|N T M A|N T M];
    cbn [stmt_ok stmt_body]; unfold part_ok; intros H; unpack;
    rewrite !no_dq_app;
    repeat match goal with H : no_dq _ = true |- _ => rewrite H end;
    reflexivity.
Qed.

Lemma stmt_ok_head s : stmt_ok s = true -> no_dq (stmt_head s) = true.
Proof.
  destruct s as [ws N T M oa|N T M|N T M A|N T M A|N T M];
    cbn [stmt_ok stmt_head]; intros H; try reflexivity.
  unpack. destruct ws as [|c ws]; [discriminate|].
  rewrite no_dq_app, spaces_no_dq by assumption. reflexivity.
Qed.

Lemma stmt_head_long s : 50 <= length (stmt_head s).
Proof.
  destruct s as [ws N T M oa|N T M|N T M A|N T M A|N T M];
    cbn [stmt_head]; try (cbv; lia).
  rewrite length_app. change (length head_dup) with 91. lia.
Qed.

Lemma no_start_dq r pre rest :
  r = pattern1 \/ r = pattern3 ->
  no_start r (dq :: pre) rest = no_start r pre rest.
Proof. intros [-> | ->]; reflexivity. Qed.

(** A statement in which no match begins at the head has no match
    beginning anywhere: not at a double quote, not in the name, which has
    no whitespace, and not in the rest, which runs up to a closing
    parenthesis. *)
Lemma no_start_stmt r s rest :
  r = pattern1 \/ r = pattern3 ->
  stmt_ok s = true ->
  no_start r (stmt_head s)
    ((dq :: stmt_name s ++ dq :: stmt_body s ++ [rparen]) ++ rest) = true ->
  no_start r (stmt_text s) rest = true.
Proof.
  intros Hr Hs Hh. rewrite stmt_text_split.
  rewrite no_start_app, Hh. cbn [andb].
  rewrite (no_start_dq r _ _ Hr), no_start_app.
  rewrite (no_start_no_space r (stmt_name s) _ Hr (stmt_ok_name s Hs)).
  cbn [andb]. rewrite (no_start_dq r _ _ Hr).
  apply (no_start_body r (stmt_body s) rest Hr (stmt_ok_body s Hs)).
Qed.

Lemma no_start1_head_call X : no_start pattern1 head_call (dq :: X) = true.
Proof. reflexivity. Qed.

Lemma no_start1_head_noargs X :
  no_start pattern1 head_noargs (dq :: X) = true.
Proof. reflexivity. Qed.

Lemma no_start3_head_noargs X :
  no_start pattern3 head_noargs (dq :: X) = true.
Proof. reflexivity. Qed.

Lemma no_start3_head_dup X : no_start pattern3 head_dup (dq :: X) = true.
Proof. reflexivity. Qed.

Lemma no_start3_head_call_tl X :
  no_start pattern3 (tl head_call) (dq :: X) = true.
Proof. reflexivity. Qed.

(** Rule 1 leaves every statement but the duplicated call as it is. *)
Lemma no_start1_stmt s rest :
  stmt_ok s = true ->
  match s with Dup _ _ _ _ _ => False | _ => True end ->
  no_start pattern1 (stmt_text s) rest = true.
Proof.
  intros Hs Hk. apply no_start_stmt; auto.
  destruct s as [ws N T M oa|N T M|N T M A|N T M A|N T M];
    [contradiction| | | |]; cbn [stmt_head app];
    first [apply no_start1_head_call | apply no_start1_head_noargs].
Qed.

Lemma field_head c w :
  field c w = true -> exists x w', w = x :: w' /\ x <> c.
Proof.
  destruct w as [|x w]; [discriminate|]. cbn [field forallb].
  intros H. apply andb_true_iff in H. destruct H as [H _].
  apply in_cset_not in H. eauto.
Qed.

(** Rule 3 leaves every statement but the call without trailing argument
    as it is. *)
Lemma no_start3_stmt s rest :
  stmt_ok s = true ->
  match s with Call _ _ _ => False | _ => True end ->
  no_start pattern3 (stmt_text s) rest = true.
Proof.
  intros Hs Hk. apply no_start_stmt; auto.
  destruct s as [ws N T M oa|N T M|N T M A|N T M A|N T M];
    [|contradiction| | |apply no_start3_head_noargs];
    cbn [stmt_head stmt_name stmt_body stmt_ok] in *;
    unfold name_ok, part_ok in Hs; unpack.
  - rewrite no_start_app.
    change ((dq :: ?a) ++ ?b) with (dq :: a ++ b).
    rewrite no_start3_head_dup, andb_true_r.
    apply no_start3_long.
    + apply spaces_no_dq. destruct ws; [discriminate|assumption].
    + reflexivity.
    + cbv. lia.
  - change head_call with (tab :: tl head_call).
    apply no_start_cons; [|apply no_start3_head_call_tl].
    rewrite <- (match_pattern3_other N T M) with (x := 44%N)
      (post := 32%N :: A ++ [rparen] ++ rest);
      [|assumption|assumption|assumption|discriminate].
    f_equal. unfold ntm. flat. reflexivity.
  - change head_call with (tab :: tl head_call).
    apply no_start_cons; [|apply no_start3_head_call_tl].
    match goal with H : field rparen A = true |- _ =>
      destruct (field_head _ _ H) as (x & A' & -> & Hx) end.
    rewrite <- (match_pattern3_other N T M) with (x := x)
      (post := A' ++ [rparen] ++ rest);
      [|assumption|assumption|assumption|assumption].
    f_equal. unfold ntm. flat. reflexivity.
Qed.

(** Rule 1 on a block: the text in front is copied, the statement is
    rewritten by [step1], and the scan goes on behind it. *)
Lemma scan1_block t s rest :
  block_ok (t, s) = true ->
  sub_scan pattern1 repl1 0 (t ++ stmt_text s ++ rest)
  = t ++ stmt_text (step1 s) ++ sub_scan pattern1 repl1 0 rest.
Proof.
  cbn [block_ok]. intros H. unpack.
  rewrite sub_scan_no_start.
  2:{ rewrite stmt_text_split. flat.
      destruct s as [ws N T M oa|N T M|N T M A|N T M A|N T M];
        cbn [stmt_head].
      - apply no_start1_dup; auto.
        + now apply negb_true_iff.
        + cbn [stmt_ok] in *. unpack. destruct ws; [discriminate|assumption].
      - apply no_start1_single; auto.
      - apply no_start1_single; auto.
      - apply no_start1_single; auto.
      - apply no_start1_single; auto. }
  f_equal.
  destruct s as [ws N T M oa|N T M|N T M A|N T M A|N T M];
    try (rewrite sub_scan_no_start by (apply no_start1_stmt; auto);
         reflexivity).
  cbn [stmt_ok stmt_text] in *. unfold name_ok, part_ok in *. unpack.
  rewrite (sub_scan_match pattern1 repl1 _ rest (caps_dup N T M oa)
             nonnull_pattern1).
  - rewrite expand_repl1. now destruct oa.
  - apply match_pattern1_dup; auto.
    + intros ->. discriminate.
    + destruct ws; [discriminate|assumption].
    + destruct oa; [|reflexivity]. cbn [arg_ok]. unpack. assumption.
Qed.

(** Rule 3 on a block, likewise with [step3]. *)
Lemma scan3_block t s rest :
  block_ok (t, s) = true ->
  sub_scan pattern3 repl3 0 (t ++ stmt_text s ++ rest)
  = t ++ stmt_text (step3 s) ++ sub_scan pattern3 repl3 0 rest.
Proof.
  cbn [block_ok]. intros H. unpack.
  rewrite sub_scan_no_start.
  2:{ rewrite stmt_text_split. flat.
      apply no_start3_long; auto using stmt_ok_head, stmt_head_long. }
  f_equal.
  destruct s as [ws N T M oa|N T M|N T M A|N T M A|N T M];
    try (rewrite sub_scan_no_start by (apply no_start3_stmt; auto);
         reflexivity).
  cbn [stmt_ok stmt_text step3] in *. unfold name_ok in *. unfold part_ok in *.
  unpack.
  rewrite (sub_scan_match pattern3 repl3 _ rest (caps_ntm N T M)
             nonnull_pattern3).
  - now rewrite expand_repl3.
  - now apply match_pattern3_call.
Qed.

Lemma stmt_ok_step1 s : stmt_ok s = true -> stmt_ok (step1 s) = true.
Proof.
  destruct s as [ws N T M [A|]|N T M|N T M A|N T M A|N T M];
    cbn [stmt_ok step1]; intros H; unpack;
    repeat match goal with H : _ = true |- _ => rewrite H; clear H end;
    reflexivity.
Qed.

Lemma stmt_ok_step3 s : stmt_ok s = true -> stmt_ok (step3 s) = true.
Proof. now destruct s. Qed.

Lemma block_ok_step1 b : block_ok b = true -> block_ok (on_stmt step1 b) = true.
Proof.
  destruct b as [t s]. cbn [block_ok on_stmt]. intros H. unpack.
  rewrite stmt_ok_step1 by assumption.
  match goal with H : no_dq t = true |- _ => rewrite H end.
  now destruct s as [ws N T M [A|]|N T M|N T M A|N T M A|N T M].
Qed.

Lemma block_ok_step3 b : block_ok b = true -> block_ok (on_stmt step3 b) = true.
Proof.
  destruct b as [t s]. cbn [block_ok on_stmt]. intros H. unpack.
  rewrite stmt_ok_step3 by assumption.
  match goal with H : no_dq t = true |- _ => rewrite H end.
  destruct s as [ws N T M oa|N T M|N T M A|N T M A|N T M];
    cbn [step3]; auto.
Qed.

Lemma scan_final r t fin :
  r = pattern1 \/ r = pattern3 ->
  no_dq fin = true -> sub_scan r t 0 fin = fin.
Proof.
  intros Hr Hf. rewrite <- (app_nil_r fin) at 1.
  rewrite sub_scan_no_start by now apply no_start_final.
  cbn [sub_scan]. apply app_nil_r.
Qed.

Lemma scan1_render bs fin :
  doc_ok bs fin = true ->
  sub_scan pattern1 repl1 0 (render bs fin)
  = render (map (on_stmt step1) bs) fin.
Proof.
  unfold doc_ok. intros H. apply andb_true_iff in H. destruct H as [Hbs Hf].
  induction bs as [|[t s] bs IH]; cbn [render map on_stmt].
  - apply scan_final; auto.
  - cbn [forallb] in Hbs. apply andb_true_iff in Hbs. destruct Hbs as [Hb Hbs].
    rewrite scan1_block by assumption. now rewrite IH.
Qed.

Lemma scan3_render bs fin :
  doc_ok bs fin = true ->
  sub_scan pattern3 repl3 0 (render bs fin)
  = render (map (on_stmt step3) bs) fin.
Proof.
  unfold doc_ok. intros H. apply andb_true_iff in H. destruct H as [Hbs Hf].
  induction bs as [|[t s] bs IH]; cbn [render map on_stmt].
  - apply scan_final; auto.
  - cbn [forallb] in Hbs. apply andb_true_iff in Hbs. destruct Hbs as [Hb Hbs].
    rewrite scan3_block by assumption. now rewrite IH.
Qed.

Lemma doc_ok_step1 bs fin :
  doc_ok bs fin = true -> doc_ok (map (on_stmt step1) bs) fin = true.
Proof.
  unfold doc_ok. intros H. apply andb_true_iff in H. destruct H as [Hbs Hf].
  rewrite Hf, andb_true_r. rewrite forallb_forall in *.
  intros b Hb. apply in_map_iff in Hb. destruct Hb as (b0 & <- & Hb0).
  apply block_ok_step1. now apply Hbs.
Qed.

Lemma doc_ok_step3 bs fin :
  doc_ok bs fin = true -> doc_ok (map (on_stmt step3) bs) fin = true.
Proof.
  unfold doc_ok. intros H. apply andb_true_iff in H. destruct H as [Hbs Hf].
  rewrite Hf, andb_true_r. rewrite forallb_forall in *.
  intros b Hb. apply in_map_iff in Hb. destruct Hb as (b0 & <- & Hb0).
  apply block_ok_step3. now apply Hbs.
Qed.

Lemma on_stmt_fix b : on_stmt step3 (on_stmt step1 b) = on_stmt fix_stmt b.
Proof. now destruct b. Qed.

(** The whole pass on a document made of call statements rewrites each
    statement by [fix_stmt] and nothing else. *)
Lemma fix_mocks_render bs fin :
  doc_ok bs fin = true ->
  fix_mocks (render bs fin) = Ok (render (map (on_stmt fix_stmt) bs) fin).
Proof.
  intros H. rewrite fix_mocks_scan, (scan1_render _ _ H).
  rewrite (scan3_render _ _ (doc_ok_step1 _ _ H)). f_equal.
  rewrite map_map. f_equal. apply map_ext. intros b. apply on_stmt_fix.
Qed.

Lemma fix_stmt_twice s : fix_stmt (fix_stmt s) = fix_stmt s.
Proof. now destruct s as [ws N T M [A|]|N T M|N T M A|N T M A|N T M]. Qed.

End Statements.

(** ** Text without tab under rule 3 *)

Section Tabless.

Lemma contains_app l a b : contains l (a ++ l ++ b) = true.
Proof.
  induction a as [|c a IH]; cbn [app].
  - destruct (l ++ b) eqn:E; cbn [contains]; unfold starts_with;
      rewrite <- E, strip_prefix_app; reflexivity.
  - cbn [contains]. rewrite IH. apply orb_true_r.
Qed.

(** A match of pattern 3 and its replacement differ in the head only. *)
Lemma match3_rewrite s rest g :
  match_at pattern3 s = Some (rest, g) ->
  exists X,
    s = head_call ++ dq :: X ++ rest /\
    expand repl3 g = head_noargs ++ dq :: X.
Proof.
  intros H. apply match_at_sound in H. destruct H as (w & -> & Hd).
  apply den_pattern3 in Hd.
  destruct Hd as (N & T & M & _ & _ & _ & -> & ->).
  exists (ntm N T M ++ chars "))"). split.
  - unfold call_text.
    change (tab :: ret_call ++ ?Y) with (head_call ++ dq :: Y).
    rewrite <- app_assoc. reflexivity.
  - now rewrite expand_repl3.
Qed.

Lemma no_nl_head_call : ~ In nl head_call.
Proof.
  assert (H : forallb (in_cset (CNot nl)) head_call = true) by reflexivity.
  rewrite forallb_forall in H. intros Hin. apply H in Hin.
  now rewrite in_cset_not_self in Hin.
Qed.

Lemma line_start_suffix p1 p2 :
  line_start (p1 ++ p2) = true -> line_start p2 = true.
Proof.
  destruct p2 as [|c p2]; [reflexivity|]. intros H.
  unfold line_start in *. destruct (p1 ++ c :: p2) eqn:E.
  - apply app_eq_nil in E. destruct E; discriminate.
  - rewrite <- E in H. now rewrite last_suffix in H by discriminate.
Qed.

Lemma line_start_last pre :
  pre <> [] -> line_start pre = true -> In nl pre.
Proof.
  intros Hne H. destruct pre as [|c pre]; [tauto|].
  unfold line_start in H. apply N.eqb_eq in H.
  rewrite (nonempty_ends (c :: pre) Hne). apply in_or_app. right.
  left. exact H.
Qed.

Lemma scan3_no_tab line post :
  no_tab line = true ->
  sub_scan pattern3 repl3 0 (line ++ post)
  = line ++ sub_scan pattern3 repl3 0 post.
Proof.
  intros H. apply sub_scan_no_start. now apply no_start_pattern3_no_tab.
Qed.

Lemma no_tab_app a b : no_tab (a ++ b) = no_tab a && no_tab b.
Proof. apply forallb_app. Qed.

(** A line without tab comes out of rule 3 as it went in, whatever
    stands before and behind it: a match that begins before the line and
    runs into it is rewritten in its head only, and the head lies on an
    earlier line. *)
Lemma scan3_keeps_line pre line post :
  no_tab line = true -> line_start pre = true ->
  exists pre' post',
    sub_scan pattern3 repl3 0 (pre ++ line ++ post) = pre' ++ line ++ post'.
Proof.
  intros Hline.
  remember (length pre) as n eqn:Hlen. revert pre Hlen.
  induction n as [n IH] using lt_wf_ind. intros pre Hlen Hpre.
  destruct pre as [|c pre].
  { exists [], (sub_scan pattern3 repl3 0 post).
    exact (scan3_no_tab line post Hline). }
  destruct (match_at pattern3 ((c :: pre) ++ line ++ post))
    as [[rest g]|] eqn:Hm.
  - rewrite (sub_scan_match _ _ _ _ _ nonnull_pattern3 Hm).
    destruct (match3_rewrite _ _ _ Hm) as (X & E & ->).
    change (dq :: X ++ rest) with ((dq :: X) ++ rest) in E.
    rewrite (app_assoc head_call) in E.
    apply app_eq_app in E. destruct E as (l & [[E1 E2]|[E1 E2]]).
    + (* the match ends inside [pre] *)
      destruct (IH (length l)) with (pre := l) as (pre' & post' & Hl).
      * subst n. rewrite E1, length_app, length_app. cbn [length].
        change (length head_call) with 50. lia.
      * reflexivity.
      * rewrite E1 in Hpre. now apply line_start_suffix in Hpre.
      * exists ((head_noargs ++ dq :: X) ++ pre'), post'.
        rewrite E2, Hl. now rewrite <- !app_assoc.
    + (* the match runs into the line *)
      destruct l as [|x l].
      { rewrite app_nil_r in E1. cbn [app] in E2. subst rest.
        exists (head_noargs ++ dq :: X), (sub_scan pattern3 repl3 0 post).
        rewrite scan3_no_tab by assumption. now rewrite <- !app_assoc. }
      assert (Hnl : In nl (c :: pre))
        by (apply line_start_last; [discriminate|assumption]).
      apply app_eq_app in E1. destruct E1 as (l2 & [[E3 E4]|[E3 E4]]).
      * exfalso. apply no_nl_head_call. rewrite E3.
        apply in_or_app. now left.
      * apply app_eq_app in E2. destruct E2 as (l3 & [[E5 E6]|[E5 E6]]).
        -- (* ... and ends inside it *)
           exists (head_noargs ++ l2), (sub_scan pattern3 repl3 0 post).
           rewrite E6. rewrite E5, no_tab_app in Hline.
           apply andb_true_iff in Hline. destruct Hline as [_ Hl3].
           rewrite scan3_no_tab by assumption.
           rewrite E4, E5. now rewrite <- !app_assoc.
        -- (* ... and ends behind it *)
           exists (head_noargs ++ l2),
             (l3 ++ sub_scan pattern3 repl3 0 rest).
           rewrite E4, E5. now rewrite <- !app_assoc.
  - change ((c :: pre) ++ line ++ post) with (c :: pre ++ line ++ post) in *.
    rewrite sub_scan_nomatch by assumption.
    destruct (IH (length pre)) with (pre := pre) as (pre' & post' & Hl).
    + subst n. cbn [length]. lia.
    + reflexivity.
    + now apply (line_start_suffix [c]).
    + exists (c :: pre'), post'. now rewrite Hl.
Qed.

End Tabless.

(** ** Further properties of the rules *)

Section ScanInduction.

Variables (r : regex) (t : template).
Hypothesis r_nonnull : nonnull r = true.

(** Induction along the scan: a relation between input and output that
    holds for the empty text, is kept by a copied character and is kept
    by a replaced match holds between every text and its scan. *)
Lemma sub_scan_rel (P : list char -> list char -> Prop) :
  P [] [] ->
  (forall c s o, match_at r (c :: s) = None -> P s o -> P (c :: s) (c :: o)) ->
  (forall s rest g o,
      match_at r s = Some (rest, g) -> P rest o -> P s (expand t g ++ o)) ->
  forall s, P s (sub_scan r t 0 s).
Proof.
  intros Hnil Hcopy Hrepl s.
  remember (length s) as n eqn:Hlen. revert s Hlen.
  induction n as [n IH] using lt_wf_ind. intros s Hlen.
  destruct (match_at r s) as [[rest g]|] eqn:Hm.
  - rewrite (sub_scan_match _ _ _ _ _ r_nonnull Hm).
    apply (Hrepl _ _ _ _ Hm).
    destruct (match_at_shorter _ _ _ _ r_nonnull Hm) as (c & w & -> & _).
    apply (IH (length rest)); [|reflexivity].
    subst n. cbn [length]. rewrite length_app. lia.
  - destruct s as [|c s]; [exact Hnil|].
    rewrite sub_scan_nomatch by assumption.
    apply (Hcopy _ _ _ Hm). apply (IH (length s)); [|reflexivity].
    subst n. cbn [length]. lia.
Qed.

Lemma count_scan_skip n : forall s,
  count_scan r n s = count_scan r 0 (skipn n s).
Proof.
  induction n as [|n IH]; intros s; [reflexivity|].
  destruct s as [|c s]; [reflexivity|]. simpl. apply IH.
Qed.

(** After a match the count goes on, one higher, on the text that
    follows it. *)
Lemma count_scan_match s rest g :
  match_at r s = Some (rest, g) ->
  count_scan r 0 s = S (count_scan r 0 rest).
Proof.
  intros H. destruct (match_at_shorter _ _ _ _ r_nonnull H) as (c & w & -> & _).
  simpl. simpl in H. rewrite H. f_equal.
  rewrite count_scan_skip. f_equal.
  rewrite length_app, Nat.add_sub. rewrite skipn_app, Nat.sub_diag.
  now rewrite skipn_all.
Qed.

Lemma count_scan_nomatch c s :
  match_at r (c :: s) = None ->
  count_scan r 0 (c :: s) = count_scan r 0 s.
Proof. intros H. simpl. simpl in H. now rewrite H. Qed.

(** Induction along the scan with the number of replaced matches. *)
Lemma sub_scan_count_rel (P : list char -> list char -> nat -> Prop) :
  P [] [] 0 ->
  (forall c s o n,
      match_at r (c :: s) = None -> P s o n -> P (c :: s) (c :: o) n) ->
  (forall s rest g o n,
      match_at r s = Some (rest, g) -> P rest o n ->
      P s (expand t g ++ o) (S n)) ->
  forall s, P s (sub_scan r t 0 s) (count_scan r 0 s).
Proof.
  intros Hnil Hcopy Hrepl s.
  remember (length s) as n eqn:Hlen. revert s Hlen.
  induction n as [n IH] using lt_wf_ind. intros s Hlen.
  destruct (match_at r s) as [[rest g]|] eqn:Hm.
  - rewrite (sub_scan_match _ _ _ _ _ r_nonnull Hm).
    rewrite (count_scan_match _ _ _ Hm).
    apply (Hrepl _ _ _ _ _ Hm).
    destruct (match_at_shorter _ _ _ _ r_nonnull Hm) as (c & w & -> & _).
    apply (IH (length rest)); [|reflexivity].
    subst n. cbn [length]. rewrite length_app. lia.
  - destruct s as [|c s]; [exact Hnil|].
    rewrite sub_scan_nomatch, count_scan_nomatch by assumption.
    apply (Hcopy _ _ _ _ Hm). apply (IH (length s)); [|reflexivity].
    subst n. cbn [length]. lia.
Qed.

(** The scan replaces no match exactly when the pattern occurs nowhere. *)
Lemma count_scan_occurs s :
  count_scan r 0 s = 0 <-> occurs r s = false.
Proof.
  apply (sub_scan_count_rel
           (fun s _ n => n = 0 <-> occurs r s = false)).
  - cbn [occurs]. destruct (match_at r []) as [[rest g]|] eqn:Hm.
    + destruct (match_at_shorter _ _ _ _ r_nonnull Hm) as (c & w & E & _).
      destruct w; discriminate.
    + tauto.
  - intros c s0 o n Hm IH. cbn [occurs]. now rewrite Hm.
  - intros s0 rest g o n Hm _. split; [discriminate|].
    destruct s0; cbn [occurs]; now rewrite Hm.
Qed.

End ScanInduction.

Section RuleFacts.

(** The text matched by pattern 1, with the groups it captures. *)
Lemma den_pattern1_caps w g :
  den pattern1 [] w g ->
  exists ws N T M oa,
    ws <> [] /\ forallb is_space ws = true /\
    field dq N = true /\ field rparen T = true /\ field rparen M = true /\
    arg_ok oa = true /\
    w = dup_text ws N T M oa /\ g = caps_dup N T M oa.
Proof.
  unfold pattern1. cbn [den].
  intros (ws & w0 & g0 & -> & (Hne & Hws & ->)
          & l0 & w1 & g1 & -> & [-> ->] & Hd).
  apply den_name_type_method in Hd.
  destruct Hd as (N & T & M & wt & -> & HN & HT & HM & Hd).
  cbn [den] in Hd.
  destruct Hd as (l1 & w2 & g2 & -> & [-> ->] & wo & l2 & g3 & -> & Ho
                  & [-> ->]).
  destruct Ho as [(l3 & A & g4 & -> & [-> ->] & HA)|[-> ->]].
  - apply den_grp_field in HA. destruct HA as [HA ->].
    exists ws, N, T, M, (Some A). repeat split; auto.
  - exists ws, N, T, M, None. repeat split; auto.
Qed.

Lemma no_start_occurs r s :
  match_at r [] = None -> no_start r s [] = true -> occurs r s = false.
Proof.
  intros Hnil. induction s as [|c s IH]; cbn [no_start occurs].
  - now rewrite Hnil.
  - rewrite app_nil_r.
    destruct (match_at r (c :: s)); [discriminate|]. exact IH.
Qed.

Lemma length_ntm_call N T M :
  length (call_text N T M) = 53 + length (ntm N T M).
Proof.
  unfold call_text. cbn [length]. rewrite !length_app.
  change (length ret_call) with 50. change (length (chars "))")) with 2.
  lia.
Qed.

Lemma length_ntm_noargs N T M :
  length (noargs_text N T M) = 59 + length (ntm N T M).
Proof.
  unfold noargs_text. cbn [length]. rewrite !length_app.
  change (length noargs_head) with 56. change (length (chars "))")) with 2.
  lia.
Qed.

Lemma length_dup_joined ws N T M oa :
  ws <> [] ->
  length (joined_text N T M oa) + 42 <= length (dup_text ws N T M oa).
Proof.
  intros Hws. unfold joined_text, dup_text. cbn [length].
  rewrite !length_app.
  change (length ret_call) with 50. change (length dup_call) with 92.
  change (length (chars ")")) with 1.
  destruct ws as [|c ws]; [tauto|]. cbn [length].
  destruct oa as [A|]; [rewrite length_app|]; cbn [length]; lia.
Qed.

(** The values of the groups after a match are pieces of the matched
    text, or were there before. *)
Lemma den_groups r : forall g w g',
  den r g w g' ->
  forall i x, group i g' = Some x -> group i g = Some x \/ incl x w.
Proof.
  induction r as [l|cs|j r IH|r IH|r1 IH1 r2 IH2]; intros g w g' Hd i x Hx;
    cbn [den] in Hd.
  - destruct Hd as [_ ->]. now left.
  - destruct Hd as (_ & _ & ->). now left.
  - destruct Hd as (g0 & Hd & ->). cbn [set_group group] in Hx.
    destruct (Nat.eqb i j).
    + injection Hx as <-. right. apply incl_refl.
    + eauto.
  - destruct Hd as [Hd|[-> ->]]; [eauto|now left].
  - destruct Hd as (w1 & w2 & g1 & -> & Hd1 & Hd2).
    destruct (IH2 _ _ _ Hd2 _ _ Hx) as [H|H].
    + destruct (IH1 _ _ _ Hd1 _ _ H) as [H'|H']; [now left|].
      right. now apply incl_appl.
    + right. now apply incl_appr.
Qed.

Lemma expand_chars t g c :
  In c (expand t g) ->
  In c (template_chars t) \/ exists i x, group i g = Some x /\ In c x.
Proof.
  induction t as [|[l|i] t IH]; cbn [expand template_chars flat_map].
  - tauto.
  - intros H. apply in_app_or in H. destruct H as [H|H].
    + left. apply in_or_app. now left.
    + destruct (IH H) as [H'|H']; [|now right].
      left. apply in_or_app. now right.
  - destruct (group i g) as [x|] eqn:Hg.
    + intros H. apply in_app_or in H. destruct H as [H|H].
      * right. eauto.
      * exact (IH H).
    + exact IH.
Qed.

(** The scan writes no character that is neither in its input nor in
    the literal text of the template. *)
Lemma sub_scan_chars r t s c :
  nonnull r = true ->
  In c (sub_scan r t 0 s) -> In c s \/ In c (template_chars t).
Proof.
  intros Hn. revert c.
  apply (sub_scan_rel r t Hn
           (fun s o => forall c, In c o -> In c s \/ In c (template_chars t))).
  - intros c [].
  - intros c0 s0 o _ IH c [->|H]; [left; now left|].
    destruct (IH c H); [left; now right|now right].
  - intros s0 rest g o Hm IH c H.
    apply match_at_sound in Hm. destruct Hm as (w & -> & Hd).
    apply in_app_or in H. destruct H as [H|H].
    + apply expand_chars in H. destruct H as [H|(i & x & Hg & Hx)].
      * now right.
      * destruct (den_groups _ _ _ _ Hd _ _ Hg) as [Hg'|Hin].
        -- discriminate.
        -- left. apply in_or_app. left. now apply Hin.
    + destruct (IH c H); [left; apply in_or_app; now right|now right].
Qed.

End RuleFacts.

(** ** What the rules do to the length and to the line feeds *)

Section Measures.

Lemma newlines_app a b : newlines (a ++ b) = newlines a + newlines b.
Proof. unfold newlines. now rewrite filter_app, length_app. Qed.

Lemma newlines_cons c s :
  newlines (c :: s) = newlines [c] + newlines s.
Proof. apply (newlines_app [c] s). Qed.

(** Rule 3 writes six characters more than it reads for every match it
    replaces. *)
Lemma rule3_length s :
  length (sub_scan pattern3 repl3 0 s)
  = length s + 6 * count_scan pattern3 0 s.
Proof.
  apply (sub_scan_count_rel pattern3 repl3 nonnull_pattern3
           (fun s o n => length o = length s + 6 * n)).
  - reflexivity.
  - intros c s0 o n _ IH. cbn [length]. lia.
  - intros s0 rest g o n Hm IH.
    apply match_at_sound in Hm. destruct Hm as (w & -> & Hd).
    apply den_pattern3 in Hd.
    destruct Hd as (N & T & M & _ & _ & _ & -> & ->).
    rewrite (expand_repl3 N T M), !length_app.
    rewrite length_ntm_call, length_ntm_noargs. lia.
Qed.

(** Rule 3 keeps every line feed and adds none. *)
Lemma rule3_newlines s :
  newlines (sub_scan pattern3 repl3 0 s) = newlines s.
Proof.
  apply (sub_scan_rel pattern3 repl3 nonnull_pattern3
           (fun s o => newlines o = newlines s)).
  - reflexivity.
  - intros c s0 o _ IH.
    rewrite (newlines_cons c o), (newlines_cons c s0). now rewrite IH.
  - intros s0 rest g o Hm IH.
    apply match_at_sound in Hm. destruct Hm as (w & -> & Hd).
    apply den_pattern3 in Hd.
    destruct Hd as (N & T & M & _ & _ & _ & -> & ->).
    rewrite (expand_repl3 N T M), !newlines_app, IH.
    apply (f_equal (fun n => n + newlines rest)).
    unfold noargs_text, call_text.
    change (tab :: noargs_head ++ ntm N T M ++ chars "))")
      with ((tab :: noargs_head) ++ ntm N T M ++ chars "))").
    change (tab :: ret_call ++ ntm N T M ++ chars "))")
      with ((tab :: ret_call) ++ ntm N T M ++ chars "))").
    rewrite !newlines_app. reflexivity.
Qed.

(** Rule 1 takes the line feed between the two heads away, and the line
    feeds of the whitespace in front of the first. *)
Lemma rule1_newlines s :
  newlines (sub_scan pattern1 repl1 0 s) <= newlines s /\
  (occurs pattern1 s = true ->
   newlines (sub_scan pattern1 repl1 0 s) < newlines s).
Proof.
  apply (sub_scan_rel pattern1 repl1 nonnull_pattern1
           (fun s o => newlines o <= newlines s /\
                       (occurs pattern1 s = true ->
                        newlines o < newlines s))).
  - split; [reflexivity|]. intros H. discriminate.
  - intros c s0 o Hm [IH1 IH2].
    rewrite (newlines_cons c o), (newlines_cons c s0).
    cbn [occurs]. rewrite Hm. split; [lia|].
    intros H. specialize (IH2 H). lia.
  - intros s0 rest g o Hm [IH1 _].
    apply match_at_sound in Hm. destruct Hm as (w & -> & Hd).
    apply den_pattern1_caps in Hd.
    destruct Hd as (ws & N & T & M & oa & _ & _ & _ & _ & _ & _ & -> & ->).
    rewrite expand_repl1, !newlines_app.
    assert (E : newlines (joined_text N T M oa) + 1
                <= newlines (dup_text ws N T M oa)).
    { unfold joined_text, dup_text.
      change (tab :: ret_call ++ ntm N T M ++ chars ")"
                ++ match oa with Some A => A | None => [] end ++ chars ")")
        with ((tab :: ret_call) ++ ntm N T M ++ chars ")"
                ++ match oa with Some A => A | None => [] end ++ chars ")").
      rewrite !newlines_app.
      change (newlines (tab :: ret_call)) with 0.
      change (newlines dup_call) with 1.
      destruct oa as [A|]; [rewrite newlines_app|]; lia. }
    lia.
Qed.

End Measures.

Section SettledDocuments.

Ltac unpack_ok :=
  repeat match goal with
         | H : _ && _ = true |- _ =>
             apply andb_true_iff in H; destruct H
         end.

(** In a document whose statements are all settled no match of pattern 1
    or pattern 3 begins anywhere. *)
Lemma no_start_settled r bs fin :
  r = pattern1 \/ r = pattern3 ->
  doc_ok bs fin = true ->
  forallb (fun b => settled (snd b)) bs = true ->
  no_start r (render bs fin) [] = true.
Proof.
  intros Hr Hok Hs. unfold doc_ok in Hok.
  apply andb_true_iff in Hok. destruct Hok as [Hbs Hf].
  induction bs as [|[t s] bs IH]; cbn [render].
  - now apply no_start_final.
  - cbn [forallb snd] in *. unpack_ok.
    rewrite no_start_app, no_start_app, !app_nil_r.
    rewrite IH by assumption. rewrite andb_true_r.
    match goal with H : block_ok _ = true |- _ =>
      cbn [block_ok] in H; unpack_ok end.
    apply andb_true_iff. split.
    + rewrite stmt_text_split.
      repeat first [ progress change ((?x :: ?a) ++ ?b) with (x :: a ++ b)
                   | rewrite <- app_assoc ].
      destruct Hr as [-> | ->].
      * destruct s as [ws N T M oa|N T M|N T M A|N T M A|N T M];
          try discriminate; cbn [stmt_head];
          apply no_start1_single; auto.
      * apply no_start3_long; auto using stmt_ok_head, stmt_head_long.
    + destruct Hr as [-> | ->].
      * apply no_start1_stmt; [assumption|]. now destruct s.
      * apply no_start3_stmt; [assumption|]. now destruct s.
Qed.

Lemma settled_fix_stmt bs :
  forallb (fun b => settled (snd b)) (map (on_stmt fix_stmt) bs) = true.
Proof.
  induction bs as [|[t s] bs IH]; [reflexivity|].
  cbn [map on_stmt forallb snd]. rewrite IH, andb_true_r.
  now destruct s as [ws N T M [A|]|N T M|N T M A|N T M A|N T M].
Qed.

Lemma doc_ok_fix_stmt bs fin :
  doc_ok bs fin = true -> doc_ok (map (on_stmt fix_stmt) bs) fin = true.
Proof.
  intros H. rewrite <- (map_ext _ _ on_stmt_fix), <- map_map.
  now apply doc_ok_step3, doc_ok_step1.
Qed.

End SettledDocuments.

(** ** Documents with free text between the statements *)

Section FreeTexts.

Ltac unpack :=
  repeat match goal with
         | H : _ && _ = true |- _ =>
             apply andb_true_iff in H; destruct H
         end.

Ltac flat :=
  repeat first [ progress change ((?x :: ?a) ++ ?b) with (x :: a ++ b)
               | rewrite <- app_assoc ].

(** A text holds no double quote, or it has a first one. *)
Lemma first_dq (p : list char) :
  no_dq p = true \/ exists a b, p = a ++ dq :: b /\ no_dq a = true.
Proof.
  induction p as [|c p IH]; [now left|].
  destruct (N.eqb_spec c dq) as [->|Hc].
  - right. now exists [], p.
  - apply in_cset_not in Hc.
    destruct IH as [IH|(a & b & -> & Ha)].
    + left. cbn [no_dq forallb]. rewrite Hc. exact IH.
    + right. exists (c :: a), b. split; [reflexivity|].
      cbn [no_dq forallb]. rewrite Hc. exact Ha.
Qed.

(** Free text holds the opening double quote of no match of pattern 3:
    the head of the pattern would stand in front of it. *)
Lemma free3_quoted p1 a b rest :
  text_free (p1 ++ a ++ dq :: b) = true -> no_dq a = true ->
  match_at pattern3 ((a ++ dq :: b) ++ rest) = None.
Proof.
  intros Hf Ha.
  destruct (match_at pattern3 ((a ++ dq :: b) ++ rest)) as [x|] eqn:Hm;
    [exfalso|reflexivity].
  apply match3_split in Hm. rewrite <- app_assoc in Hm.
  change ((dq :: b) ++ rest) with (dq :: b ++ rest) in Hm.
  rewrite (split_dq_head _ _ Ha) in Hm.
  assert (E : a = head_call) by congruence. subst a.
  unfold text_free in Hf. unpack.
  match goal with H : negb (contains (tab :: ret_call) _) = true |- _ =>
    apply negb_true_iff in H; rename H into Hc end.
  change (head_call ++ dq :: b) with ((tab :: ret_call) ++ b) in Hc.
  rewrite contains_app in Hc. discriminate.
Qed.

(** Nor that of a match of pattern 1. *)
Lemma free1_quoted p1 a b rest :
  text_free (p1 ++ a ++ dq :: b) = true -> no_dq a = true ->
  match_at pattern1 ((a ++ dq :: b) ++ rest) = None.
Proof.
  intros Hf Ha.
  destruct (match_at pattern1 ((a ++ dq :: b) ++ rest)) as [x|] eqn:Hm;
    [exfalso|reflexivity].
  apply match1_split in Hm. destruct Hm as (ws & _ & _ & Hm).
  rewrite <- app_assoc in Hm.
  change ((dq :: b) ++ rest) with (dq :: b ++ rest) in Hm.
  rewrite (split_dq_head _ _ Ha) in Hm.
  assert (E : a = ws ++ head_dup) by congruence. subst a.
  unfold text_free in Hf. unpack.
  match goal with H : negb (contains dup_call _) = true |- _ =>
    apply negb_true_iff in H; rename H into Hc end.
  rewrite <- app_assoc, app_assoc in Hc.
  change (head_dup ++ dq :: b) with (dup_call ++ b) in Hc.
  rewrite contains_app in Hc. discriminate.
Qed.

(** No match of pattern 3 begins in free text in front of a
    statement. *)
Lemma free_start3 t s Y :
  text_free t = true -> stmt_ok s = true ->
  no_start pattern3 t (stmt_head s ++ dq :: Y) = true.
Proof.
  intros Ht Hs. apply no_start_spec. intros p1 p2 -> Hne.
  destruct (first_dq p2) as [Hp|(a & b & -> & Ha)].
  - pose proof (no_start3_long p2 (stmt_head s) Y Hp (stmt_ok_head _ Hs)
                  (stmt_head_long s)) as H.
    exact (proj1 (no_start_spec _ _ _) H [] p2 eq_refl Hne).
  - now apply (free3_quoted p1).
Qed.

(** No match of pattern 1 begins there either. *)
Lemma free_start1 t s Y :
  text_free t = true -> stmt_ok s = true ->
  match s with
  | Dup _ _ _ _ _ => is_space (last t dq) = false
  | _ => True
  end ->
  no_start pattern1 t (stmt_head s ++ dq :: Y) = true.
Proof.
  intros Ht Hs Hl. apply no_start_spec. intros p1 p2 -> Hne.
  destruct (first_dq p2) as [Hp|(a & b & -> & Ha)].
  - assert (H : no_start pattern1 p2 (stmt_head s ++ dq :: Y) = true).
    { destruct s as [ws N T M oa|N T M|N T M A|N T M A|N T M];
        cbn [stmt_head].
      - rewrite (last_suffix _ _ _ Hne) in Hl.
        apply no_start1_dup; [assumption|assumption|].
        cbn [stmt_ok] in Hs. unpack.
        destruct ws; [discriminate|assumption].
      - apply no_start1_single; auto.
      - apply no_start1_single; auto.
      - apply no_start1_single; auto.
      - apply no_start1_single; auto. }
    exact (proj1 (no_start_spec _ _ _) H [] p2 eq_refl Hne).
  - now apply (free1_quoted p1).
Qed.

(** No match begins in free text that nothing follows. *)
Lemma free_final r fin :
  r = pattern1 \/ r = pattern3 ->
  text_free fin = true -> no_start r fin [] = true.
Proof.
  intros Hr Hf. apply no_start_spec. intros p1 p2 -> Hne.
  destruct (first_dq p2) as [Hp|(a & b & -> & Ha)].
  - pose proof (no_start_final r p2 Hr Hp) as H.
    exact (proj1 (no_start_spec _ _ _) H [] p2 eq_refl Hne).
  - destruct Hr as [-> | ->].
    + now apply (free1_quoted p1).
    + now apply (free3_quoted p1).
Qed.

(** Rule 1 on a statement at the front of a text. *)
Lemma scan1_stmt s rest :
  stmt_ok s = true ->
  sub_scan pattern1 repl1 0 (stmt_text s ++ rest)
  = stmt_text (step1 s) ++ sub_scan pattern1 repl1 0 rest.
Proof.
  intros H.
  destruct s as [ws N T M oa|N T M|N T M A|N T M A|N T M];
    try (rewrite sub_scan_no_start by (apply no_start1_stmt; auto);
         reflexivity).
  cbn [stmt_ok stmt_text] in *. unfold name_ok, part_ok in *. unpack.
  rewrite (sub_scan_match pattern1 repl1 _ rest (caps_dup N T M oa)
             nonnull_pattern1).
  - rewrite expand_repl1. now destruct oa.
  - apply match_pattern1_dup; auto.
    + intros ->. discriminate.
    + destruct ws; [discriminate|assumption].
    + destruct oa; [|reflexivity]. cbn [arg_ok]. unpack. assumption.
Qed.

(** Rule 3 on a statement at the front of a text. *)
Lemma scan3_stmt s rest :
  stmt_ok s = true ->
  sub_scan pattern3 repl3 0 (stmt_text s ++ rest)
  = stmt_text (step3 s) ++ sub_scan pattern3 repl3 0 rest.
Proof.
  intros H.
  destruct s as [ws N T M oa|N T M|N T M A|N T M A|N T M];
    try (rewrite sub_scan_no_start by (apply no_start3_stmt; auto);
         reflexivity).
  cbn [stmt_ok stmt_text step3] in *. unfold name_ok in *.
  unfold part_ok in *. unpack.
  rewrite (sub_scan_match pattern3 repl3 _ rest (caps_ntm N T M)
             nonnull_pattern3).
  - now rewrite expand_repl3.
  - now apply match_pattern3_call.
Qed.

Lemma scan1_free_block t s rest :
  block_free (t, s) = true ->
  sub_scan pattern1 repl1 0 (t ++ stmt_text s ++ rest)
  = t ++ stmt_text (step1 s) ++ sub_scan pattern1 repl1 0 rest.
Proof.
  cbn [block_free]. intros H. unpack.
  rewrite sub_scan_no_start.
  - f_equal. now apply scan1_stmt.
  - rewrite stmt_text_split. flat.
    apply free_start1; [assumption|assumption|].
    destruct s; try exact I. now apply negb_true_iff.
Qed.

Lemma scan3_free_block t s rest :
  block_free (t, s) = true ->
  sub_scan pattern3 repl3 0 (t ++ stmt_text s ++ rest)
  = t ++ stmt_text (step3 s) ++ sub_scan pattern3 repl3 0 rest.
Proof.
  cbn [block_free]. intros H. unpack.
  rewrite sub_scan_no_start.
  - f_equal. now apply scan3_stmt.
  - rewrite stmt_text_split. flat. now apply free_start3.
Qed.

Lemma block_free_step1 b :
  block_free b = true -> block_free (on_stmt step1 b) = true.
Proof.
  destruct b as [t s]. cbn [block_free on_stmt]. intros H. unpack.
  rewrite stmt_ok_step1 by assumption.
  match goal with H : text_free t = true |- _ => rewrite H end.
  now destruct s as [ws N T M [A|]|N T M|N T M A|N T M A|N T M].
Qed.

Lemma block_free_step3 b :
  block_free b = true -> block_free (on_stmt step3 b) = true.
Proof.
  destruct b as [t s]. cbn [block_free on_stmt]. intros H. unpack.
  rewrite stmt_ok_step3 by assumption.
  match goal with H : text_free t = true |- _ => rewrite H end.
  destruct s as [ws N T M oa|N T M|N T M A|N T M A|N T M];
    cbn [step3]; auto.
Qed.

Lemma scan_free_final r t fin :
  r = pattern1 \/ r = pattern3 ->
  text_free fin = true -> sub_scan r t 0 fin = fin.
Proof.
  intros Hr Hf. rewrite <- (app_nil_r fin) at 1.
  rewrite sub_scan_no_start by now apply free_final.
  cbn [sub_scan]. apply app_nil_r.
Qed.

Lemma scan1_free bs fin :
  doc_free bs fin = true ->
  sub_scan pattern1 repl1 0 (render bs fin)
  = render (map (on_stmt step1) bs) fin.
Proof.
  unfold doc_free. intros H. apply andb_true_iff in H. destruct H as [Hbs Hf].
  induction bs as [|[t s] bs IH]; cbn [render map on_stmt].
  - apply scan_free_final; auto.
  - cbn [forallb] in Hbs. apply andb_true_iff in Hbs. destruct Hbs as [Hb Hbs].
    rewrite scan1_free_block by assumption. now rewrite IH.
Qed.

Lemma scan3_free bs fin :
  doc_free bs fin = true ->
  sub_scan pattern3 repl3 0 (render bs fin)
  = render (map (on_stmt step3) bs) fin.
Proof.
  unfold doc_free. intros H. apply andb_true_iff in H. destruct H as [Hbs Hf].
  induction bs as [|[t s] bs IH]; cbn [render map on_stmt].
  - apply scan_free_final; auto.
  - cbn [forallb] in Hbs. apply andb_true_iff in Hbs. destruct Hbs as [Hb Hbs].
    rewrite scan3_free_block by assumption. now rewrite IH.
Qed.

Lemma doc_free_step1 bs fin :
  doc_free bs fin = true -> doc_free (map (on_stmt step1) bs) fin = true.
Proof.
  unfold doc_free. intros H. apply andb_true_iff in H. destruct H as [Hbs Hf].
  rewrite Hf, andb_true_r. rewrite forallb_forall in *.
  intros b Hb. apply in_map_iff in Hb. destruct Hb as (b0 & <- & Hb0).
  apply block_free_step1. now apply Hbs.
Qed.

Lemma doc_free_step3 bs fin :
  doc_free bs fin = true -> doc_free (map (on_stmt step3) bs) fin = true.
Proof.
  unfold doc_free. intros H. apply andb_true_iff in H. destruct H as [Hbs Hf].
  rewrite Hf, andb_true_r. rewrite forallb_forall in *.
  intros b Hb. apply in_map_iff in Hb. destruct Hb as (b0 & <- & Hb0).
  apply block_free_step3. now apply Hbs.
Qed.

Lemma doc_free_fix_stmt bs fin :
  doc_free bs fin = true -> doc_free (map (on_stmt fix_stmt) bs) fin = true.
Proof.
  intros H. rewrite <- (map_ext _ _ on_stmt_fix), <- map_map.
  now apply doc_free_step3, doc_free_step1.
Qed.

(** The pass on a document with free text between the statements
    rewrites each statement by [fix_stmt] and copies the texts. *)
Lemma fix_mocks_free bs fin :
  doc_free bs fin = true ->
  fix_mocks (render bs fin) = Ok (render (map (on_stmt fix_stmt) bs) fin).
Proof.
  intros H. rewrite fix_mocks_scan, (scan1_free _ _ H).
  rewrite (scan3_free _ _ (doc_free_step1 _ _ H)). f_equal.
  rewrite map_map. f_equal. apply map_ext. intros b. apply on_stmt_fix.
Qed.

(** Text without double quote is free text. *)
Lemma no_dq_text_free t : no_dq t = true -> text_free t = true.
Proof.
  intros H. unfold text_free.
  assert (G : forall l, In dq l -> contains l t = false).
  { intros l Hl. destruct (contains l t) eqn:E; [exfalso|reflexivity].
    revert H E. induction t as [|c t IH]; cbn [contains no_dq forallb].
    - unfold starts_with. destruct l as [|x l]; [destruct Hl|].
      cbn [strip_prefix]. discriminate.
    - intros H E. apply andb_true_iff in H. destruct H as [Hc H].
      apply orb_true_iff in E. destruct E as [E|E]; [|now apply IH].
      unfold starts_with in E.
      destruct (strip_prefix l (c :: t)) as [s'|] eqn:Es; [|discriminate].
      apply strip_prefix_Some in Es.
      assert (Hin : In dq (c :: t)).
      { rewrite Es. apply in_or_app. now left. }
      assert (Hall : forallb (in_cset (CNot dq)) (c :: t) = true).
      { cbn [forallb]. rewrite Hc. exact H. }
      rewrite forallb_forall in Hall. specialize (Hall dq Hin).
      rewrite in_cset_not_self in Hall. discriminate. }
  rewrite (G (tab :: ret_call)), (G dup_call); [reflexivity| |].
  - assert (E : existsb (N.eqb dq) dup_call = true) by reflexivity.
    apply existsb_exists in E. destruct E as (x & Hx & Ex).
    apply N.eqb_eq in Ex. now subst x.
  - assert (E : existsb (N.eqb dq) (tab :: ret_call) = true) by reflexivity.
    apply existsb_exists in E. destruct E as (x & Hx & Ex).
    apply N.eqb_eq in Ex. now subst x.
Qed.

(** Every document made of call statements between texts without double
    quote is one with free text between the statements. *)
Lemma doc_ok_free bs fin : doc_ok bs fin = true -> doc_free bs fin = true.
Proof.
  unfold doc_ok, doc_free. intros H. unpack.
  rewrite (no_dq_text_free fin) by assumption. rewrite andb_true_r.
  rewrite forallb_forall in *. intros [t s] Hb.
  match goal with H : forall x, In x bs -> _ |- _ =>
    specialize (H _ Hb); cbn [block_ok] in H end.
  unpack. cbn [block_free].
  rewrite (no_dq_text_free t) by assumption.
  repeat match goal with H : _ = true |- _ => rewrite H; clear H end.
  reflexivity.
Qed.

End FreeTexts.

(** ** Properties of the pass *)

(** C4.  A document in which none of the three patterns occurs anywhere
    comes out of the pass unchanged. *)
Theorem pattern_free_identity (d : document) :
  occurs pattern1 d = false ->
  occurs pattern2 d = false ->
  occurs pattern3 d = false ->
  fix_mocks d = Ok d.
Proof.
  intros H1 _ H3. rewrite fix_mocks_scan.
  rewrite (sub_scan_no_occurrence pattern1 repl1 d H1).
  now rewrite (sub_scan_no_occurrence pattern3 repl3 d H3).
Qed.

Lemma pattern_free_identity_witness :
  occurs pattern1 repaired_doc = false /\
  occurs pattern2 repaired_doc = false /\
  occurs pattern3 repaired_doc = false /\
  fix_mocks repaired_doc = Ok repaired_doc.
Proof.
  assert (H1 : occurs pattern1 repaired_doc = false)
    by (vm_compute; reflexivity).
  assert (H2 : occurs pattern2 repaired_doc = false)
    by (vm_compute; reflexivity).
  assert (H3 : occurs pattern3 repaired_doc = false)
    by (vm_compute; reflexivity).
  split; [exact H1|]. split; [exact H2|]. split; [exact H3|].
  exact (pattern_free_identity repaired_doc H1 H2 H3).
Defined.

(** C7.  The pass raises no error on any document: every rule returns a
    text, the three results chain into the result of the pass, and a rule
    whose pattern occurs nowhere returns its input. *)
Theorem pass_never_fails (d : document) :
  (exists d1 d2 d3,
      rule1 d = Ok d1 /\ rule2 d1 = Ok d2 /\ rule3 d2 = Ok d3 /\
      fix_mocks d = Ok d3) /\
  (occurs pattern1 d = false -> rule1 d = Ok d) /\
  (occurs pattern2 d = false -> rule2 d = Ok d) /\
  (occurs pattern3 d = false -> rule3 d = Ok d).
Proof.
  split; [|split; [|split]].
  - exists (sub_scan pattern1 repl1 0 d), (sub_scan pattern1 repl1 0 d),
      (sub_scan pattern3 repl3 0 (sub_scan pattern1 repl1 0 d)).
    rewrite fix_mocks_scan, rule2_identity. repeat split.
  - intros H. rewrite rule1_scan. f_equal.
    now apply sub_scan_no_occurrence.
  - intros H. rewrite rule2_scan. f_equal.
    now apply sub_scan_no_occurrence.
  - intros H. rewrite rule3_scan. f_equal.
    now apply sub_scan_no_occurrence.
Qed.

Lemma pass_never_fails_witness :
  occurs pattern1 foo_method = false /\ rule1 foo_method = Ok foo_method.
Proof.
  assert (H1 : occurs pattern1 foo_method = false)
    by (vm_compute; reflexivity).
  split; [assumption|].
  exact (proj1 (proj2 (pass_never_fails foo_method)) H1).
Defined.

(** C8.  Every text that pattern 2 matches is a with-argument call in
    canonical form, and the template of rule 2 writes that same text
    back: rule 2 returns every document as it received it. *)
Theorem rule2_keeps_canonical (d : document) :
  (forall s rest g,
      match_at pattern2 s = Some (rest, g) ->
      exists N T M A,
        s = call_arg_text N T M A ++ rest /\
        expand repl2 g = call_arg_text N T M A) /\
  rule2 d = Ok d.
Proof.
  split.
  - intros s rest g H. apply match_at_sound in H.
    destruct H as (w & -> & Hd). apply den_pattern2 in Hd.
    destruct Hd as (N & T & M & A & _ & _ & _ & _ & -> & Hx).
    now exists N, T, M, A.
  - rewrite rule2_scan. f_equal.
    apply sub_scan_same_text; [reflexivity|].
    intros g w g' Hd ->. apply den_pattern2 in Hd.
    now destruct Hd as (N & T & M & A & _ & _ & _ & _ & _ & H).
Qed.

Lemma rule2_keeps_canonical_witness :
  match_at pattern2 (call_arg_text Foo Bar Foo (chars "arg0") ++ closing)
  = Some (closing, set_group 4 (chars "arg0") (caps_ntm Foo Bar Foo)) /\
  exists N T M A,
    call_arg_text Foo Bar Foo (chars "arg0") ++ closing
    = call_arg_text N T M A ++ closing /\
    expand repl2 (set_group 4 (chars "arg0") (caps_ntm Foo Bar Foo))
    = call_arg_text N T M A.
Proof.
  assert (H : match_at pattern2
                (call_arg_text Foo Bar Foo (chars "arg0") ++ closing)
              = Some (closing,
                      set_group 4 (chars "arg0") (caps_ntm Foo Bar Foo)))
    by (vm_compute; reflexivity).
  split; [exact H|].
  exact (proj1 (rule2_keeps_canonical []) _ _ _ H).
Defined.

(** C6.  There is a document on which the order 3, 2, 1 gives another
    result than the order 1, 2, 3 of the script. *)
Theorem order_matters :
  exists d o o',
    fix_mocks d = Ok o /\ fix_mocks_swapped d = Ok o' /\ o <> o'.
Proof.
  exists (tab :: foo_dup_line), (noargs_text Foo Bar Foo),
    (call_text Foo Bar Foo).
  split; [vm_compute; reflexivity|].
  split; [vm_compute; reflexivity|].
  vm_compute. discriminate.
Qed.

(** C5 as stated fails: the line has no whitespace in front of [return],
    so pattern 1 does not match it. *)
Lemma foo_dup_line_not_repaired : fix_mocks foo_dup_line <> Ok foo_call_line.
Proof. vm_compute. discriminate. Qed.

(** C5, amended.  The line without leading whitespace is returned
    unchanged; the same line behind a tab becomes the single call with
    the no-argument call target. *)
Theorem foo_dup_line_result :
  fix_mocks foo_dup_line = Ok foo_dup_line /\
  fix_mocks (tab :: foo_dup_line) = Ok (noargs_text Foo Bar Foo).
Proof. split; vm_compute; reflexivity. Qed.

(** C1.  On a duplicated call with a trailing argument the pass writes
    the argument directly behind the closing parenthesis of
    [reflect.TypeOf(...)], without the comma and the space of the
    canonical call: the output is [joined_text], which is never the
    canonical with-argument call. *)
Theorem dup_arg_loses_separator ws N T M A :
  stmt_ok (Dup ws N T M (Some A)) = true ->
  fix_mocks (dup_text ws N T M (Some A)) = Ok (joined_text N T M (Some A)) /\
  joined_text N T M (Some A) <> call_arg_text N T M A.
Proof.
  intros H. split.
  - assert (Hd : doc_ok [([], Dup ws N T M (Some A))] [] = true).
    { unfold doc_ok. cbn [forallb block_ok no_dq last is_space].
      rewrite H. reflexivity. }
    pose proof (fix_mocks_render _ _ Hd) as E.
    cbn [render map on_stmt fix_stmt step1 step3 stmt_text app] in E.
    now rewrite !app_nil_r in E.
  - intros E. apply (f_equal (@length char)) in E.
    unfold joined_text, call_arg_text in E. cbn [length] in E.
    rewrite !length_app in E.
    change (length (chars ")")) with 1 in E.
    change (length (chars "), ")) with 3 in E. lia.
Qed.

Lemma dup_arg_loses_separator_witness :
  stmt_ok (Dup [tab] Foo Bar Foo (Some (chars "arg0"))) = true /\
  fix_mocks foo_dup_arg = Ok (joined_text Foo Bar Foo (Some (chars "arg0"))) /\
  joined_text Foo Bar Foo (Some (chars "arg0"))
  <> call_arg_text Foo Bar Foo (chars "arg0").
Proof.
  assert (H : stmt_ok (Dup [tab] Foo Bar Foo (Some (chars "arg0"))) = true)
    by (vm_compute; reflexivity).
  split; [exact H|].
  exact (dup_arg_loses_separator [tab] Foo Bar Foo (chars "arg0") H).
Defined.

(** C9 as stated fails: in [nested_dup] the duplicated call for
    [odd_name] follows a line break and a tab, but a match of pattern 1
    that begins earlier runs over it; the line break stays and the call
    is not repaired. *)
Lemma nested_dup_keeps_newline :
  field dq odd_name = true /\
  field rparen (chars "U") = true /\ field rparen (chars "V") = true /\
  exists out,
    rule1 (([tab] ++ dup_call ++ chars "Z")
             ++ dup_text [nl; tab] odd_name (chars "U") (chars "V") None)
    = Ok out /\
    contains (joined_text odd_name (chars "U") (chars "V") None) out = false /\
    contains (dup_text [nl; tab] odd_name (chars "U") (chars "V") None) out
    = true.
Proof.
  repeat (split; [vm_compute; reflexivity|]).
  eexists. split; [vm_compute; reflexivity|].
  split; vm_compute; reflexivity.
Qed.

(** C9, amended.  Pattern 1 begins with [\s+], which runs over line
    breaks, and its template begins with one tab.  So when the duplicated
    call follows a run of whitespace [ws] that holds a line break, the
    match at that run takes the whole run together with the call and is
    replaced by the repaired statement, which begins with that one tab.
    When no match begins earlier, the repaired statement directly follows
    the text [pre] of the previous line; when earlier matches end before
    the run, it follows what rule 1 made of [pre]. *)
Theorem rule1_joins_lines pre ws N T M oa post :
  field dq N = true -> field rparen T = true -> field rparen M = true ->
  arg_ok oa = true ->
  forallb is_space ws = true -> has_newline ws = true ->
  (match_at pattern1 (dup_text ws N T M oa ++ post)
   = Some (post, caps_dup N T M oa) /\
   expand repl1 (caps_dup N T M oa) = joined_text N T M oa /\
   hd_error (joined_text N T M oa) = Some tab) /\
  exists post',
    rule1 post = Ok post' /\
    (no_start pattern1 pre (dup_text ws N T M oa ++ post) = true ->
     rule1 (pre ++ dup_text ws N T M oa ++ post)
     = Ok (pre ++ joined_text N T M oa ++ post')) /\
    (contained pattern1 pre (dup_text ws N T M oa ++ post) = true ->
     exists pre',
       rule1 (pre ++ dup_text ws N T M oa ++ post)
       = Ok (pre' ++ joined_text N T M oa ++ post')).
Proof.
  intros HN HT HM Ha Hsp Hnl.
  assert (Hws : ws <> []) by (intros ->; discriminate).
  pose proof (match_pattern1_dup N T M HN HT HM ws Hws Hsp oa post Ha) as Hm.
  assert (Hscan : sub_scan pattern1 repl1 0 (dup_text ws N T M oa ++ post)
                  = joined_text N T M oa ++ sub_scan pattern1 repl1 0 post).
  { rewrite (sub_scan_match pattern1 repl1 _ _ _ nonnull_pattern1 Hm).
    now rewrite expand_repl1. }
  split; [split; [exact Hm|split; [apply expand_repl1|reflexivity]]|].
  exists (sub_scan pattern1 repl1 0 post). split; [apply rule1_scan|]. split.
  - intros Hpre. rewrite rule1_scan. f_equal.
    rewrite (sub_scan_no_start pattern1 repl1 _ _ Hpre). now rewrite Hscan.
  - intros Hpre.
    destruct (sub_scan_contained pattern1 repl1 nonnull_pattern1 _ _ Hpre)
      as (pre' & E).
    exists pre'. rewrite rule1_scan. f_equal. now rewrite E, Hscan.
Qed.

Lemma rule1_joins_lines_witness :
  no_start pattern1 foo_method
    (dup_text [nl; tab] Foo Bar Foo None ++ closing) = true /\
  exists post',
    rule1 closing = Ok post' /\
    rule1 (foo_method ++ dup_text [nl; tab] Foo Bar Foo None ++ closing)
    = Ok (foo_method ++ joined_text Foo Bar Foo None ++ post').
Proof.
  assert (H : no_start pattern1 foo_method
                (dup_text [nl; tab] Foo Bar Foo None ++ closing) = true)
    by (vm_compute; reflexivity).
  split; [exact H|].
  destruct (rule1_joins_lines foo_method [nl; tab] Foo Bar Foo None closing
              eq_refl eq_refl eq_refl eq_refl eq_refl eq_refl)
    as (_ & post' & Hpost & Hjoin & _).
  exists post'. split; [exact Hpost|exact (Hjoin H)].
Defined.

(** C10 as stated fails: [odd_type_line] is a call without trailing
    argument that no tab precedes, and pattern 3 would match it behind a
    tab; but its type holds a tab followed by a further call, which rule 3
    rewrites, so the line does not stay as it was. *)
Lemma odd_type_line_rewritten :
  field dq Foo = true /\ field rparen odd_type = true /\
  match_at pattern3 (tab :: odd_type_line)
  = Some ([], caps_ntm Foo odd_type Foo) /\
  hd_error odd_type_line = Some 114%N /\
  exists out,
    rule3 odd_type_line = Ok out /\
    contains odd_type_line out = false /\
    contains (chars "RecordNoArgsCall") out = true.
Proof.
  repeat (split; [vm_compute; reflexivity|]).
  eexists. split; [vm_compute; reflexivity|].
  split; vm_compute; reflexivity.
Qed.

(** C10, amended.  Patterns 2 and 3 match nowhere but at a tab.  A line
    that holds no tab at all, at the start of the document or behind a
    line break, is therefore left as it is by rule 2 and by rule 3,
    whatever call it holds and whatever surrounds it; when the matches
    that begin before the line also end before it, the text in front of
    it and the text behind it are rewritten independently. *)
Theorem rules23_need_tab pre line post :
  no_tab line = true ->
  line_start pre = true ->
  (forall c s, c <> tab ->
     match_at pattern2 (c :: s) = None /\ match_at pattern3 (c :: s) = None) /\
  rule2 (pre ++ line ++ post) = Ok (pre ++ line ++ post) /\
  (exists pre' post',
     rule3 (pre ++ line ++ post) = Ok (pre' ++ line ++ post')) /\
  (contained pattern3 pre (line ++ post) = true ->
   exists pre' post',
     rule3 post = Ok post' /\
     rule3 (pre ++ line ++ post) = Ok (pre' ++ line ++ post')).
Proof.
  intros Hline Hstart. split; [|split; [|split]].
  - intros c s Hc. split.
    + now apply match_pattern2_head.
    + now apply match_pattern3_head.
  - apply rule2_identity.
  - destruct (scan3_keeps_line pre line post Hline Hstart)
      as (pre' & post' & E).
    exists pre', post'. rewrite rule3_scan. now rewrite E.
  - intros Hpre.
    destruct (sub_scan_contained pattern3 repl3 nonnull_pattern3 _ _ Hpre)
      as (pre' & E).
    exists pre', (sub_scan pattern3 repl3 0 post).
    split; [apply rule3_scan|].
    rewrite rule3_scan, E. do 2 f_equal.
    now apply scan3_no_tab.
Qed.

Lemma rules23_need_tab_witness :
  no_tab spaced_call = true /\
  line_start (foo_method ++ [nl]) = true /\
  rule2 ((foo_method ++ [nl]) ++ spaced_call ++ closing)
  = Ok ((foo_method ++ [nl]) ++ spaced_call ++ closing) /\
  exists pre' post',
    rule3 ((foo_method ++ [nl]) ++ spaced_call ++ closing)
    = Ok (pre' ++ spaced_call ++ post').
Proof.
  assert (H1 : no_tab spaced_call = true) by (vm_compute; reflexivity).
  assert (H2 : line_start (foo_method ++ [nl]) = true)
    by (vm_compute; reflexivity).
  split; [exact H1|]. split; [exact H2|].
  destruct (rules23_need_tab (foo_method ++ [nl]) spaced_call closing H1 H2)
    as (_ & Hr2 & Hr3 & _).
  split; [exact Hr2|exact Hr3].
Defined.

(** C2 as stated fails: [overlapping] contains the tab-indented call
    without trailing argument for the name [odd_name], but an earlier
    match of pattern 3 ends inside that call, which is then copied as it
    is; the output has no [RecordNoArgsCall] for that name. *)
Lemma overlapping_call_kept :
  field dq odd_name = true /\
  field rparen (chars "T") = true /\ field rparen (chars "M") = true /\
  exists out,
    fix_mocks ((tab :: ret_call) ++ call_text odd_name (chars "T") (chars "M"))
    = Ok out /\
    contains (noargs_text odd_name (chars "T") (chars "M")) out = false /\
    contains (call_text odd_name (chars "T") (chars "M")) out = true.
Proof.
  repeat (split; [vm_compute; reflexivity|]).
  eexists. split; [vm_compute; reflexivity|].
  split; vm_compute; reflexivity.
Qed.

(** C2, amended.  When the text that reaches rule 3 holds the
    tab-indented call without trailing argument, for a name without
    double quote and a type and a method without closing parenthesis, and
    every match of pattern 3 that begins before the call also ends before
    it, the output of the pass has the no-argument call target with the
    same name, type and method at that place. *)
Theorem noargs_call_rewritten d pre post N T M :
  field dq N = true -> field rparen T = true -> field rparen M = true ->
  rule1 d = Ok (pre ++ call_text N T M ++ post) ->
  contained pattern3 pre (call_text N T M ++ post) = true ->
  exists pre' post',
    rule3 post = Ok post' /\
    fix_mocks d = Ok (pre' ++ noargs_text N T M ++ post').
Proof.
  intros HN HT HM H1 Hpre.
  destruct (sub_scan_contained pattern3 repl3 nonnull_pattern3 _ _ Hpre)
    as (pre' & E).
  exists pre', (sub_scan pattern3 repl3 0 post).
  split; [apply rule3_scan|].
  rewrite fix_mocks_scan. rewrite rule1_scan in H1.
  assert (H1' : sub_scan pattern1 repl1 0 d = pre ++ call_text N T M ++ post)
    by congruence.
  rewrite H1', E. do 2 f_equal.
  rewrite (sub_scan_match pattern3 repl3 _ _ _ nonnull_pattern3
             (match_pattern3_call N T M HN HT HM post)).
  now rewrite expand_repl3.
Qed.

Lemma noargs_call_rewritten_witness :
  rule1 two_methods
  = Ok ((foo_method ++ call_text Foo Bar Foo ++ [nl])
          ++ call_text Bar Foo Bar ++ closing) /\
  contained pattern3 (foo_method ++ call_text Foo Bar Foo ++ [nl])
    (call_text Bar Foo Bar ++ closing) = true /\
  exists pre' post',
    rule3 closing = Ok post' /\
    fix_mocks two_methods = Ok (pre' ++ noargs_text Bar Foo Bar ++ post').
Proof.
  assert (H1 : rule1 two_methods
               = Ok ((foo_method ++ call_text Foo Bar Foo ++ [nl])
                       ++ call_text Bar Foo Bar ++ closing))
    by (vm_compute; reflexivity).
  assert (H2 : contained pattern3 (foo_method ++ call_text Foo Bar Foo ++ [nl])
                 (call_text Bar Foo Bar ++ closing) = true)
    by (vm_compute; reflexivity).
  split; [exact H1|]. split; [exact H2|].
  exact (noargs_call_rewritten two_methods
           (foo_method ++ call_text Foo Bar Foo ++ [nl]) closing Bar Foo Bar
           eq_refl eq_refl eq_refl H1 H2).
Defined.

(** C3 as stated fails: on [overlapping] the first run rewrites the
    outer call and leaves the inner one, which the second run then
    rewrites. *)
Lemma overlapping_not_idempotent :
  (d1 <- fix_mocks overlapping ;; fix_mocks d1) <> fix_mocks overlapping.
Proof. vm_compute. discriminate. Qed.

(** C3, amended.  Applying the pass to its own output changes nothing
    exactly when that output holds no match of pattern 1 and no match of
    pattern 3: a match that the first run leaves behind, as the inner
    call of [overlapping], is rewritten by the second run, and nothing
    else is.  No match is left behind in a document made of call
    statements (duplicated calls, single calls with or without trailing
    argument, calls of the no-argument target, joined calls) between
    texts in which the head of pattern 1 and the head of pattern 3 do not
    occur, whatever else the texts hold, double quotes included: on such
    a document the pass is idempotent. *)
Theorem pass_idempotent_exactly d out :
  fix_mocks d = Ok out ->
  ((d1 <- fix_mocks d ;; fix_mocks d1) = fix_mocks d
   <-> occurs pattern1 out = false /\ occurs pattern3 out = false)
  /\ (forall bs fin,
        d = render bs fin -> doc_free bs fin = true ->
        (d1 <- fix_mocks d ;; fix_mocks d1) = fix_mocks d).
Proof.
  intros H. split.
  - rewrite H. cbn [bind]. rewrite fix_mocks_scan. split.
    + intros E.
      assert (E' : sub_scan pattern3 repl3 0 (sub_scan pattern1 repl1 0 out)
                   = out) by congruence.
      clear E. destruct (occurs pattern1 out) eqn:H1.
      * exfalso.
        pose proof (proj2 (rule1_newlines out) H1) as L1.
        pose proof (rule3_newlines (sub_scan pattern1 repl1 0 out)) as L3.
        rewrite E' in L3. lia.
      * split; [reflexivity|].
        rewrite (sub_scan_no_occurrence pattern1 repl1 out H1) in E'.
        apply (count_scan_occurs pattern3 repl3 nonnull_pattern3).
        pose proof (rule3_length out) as L. rewrite E' in L. lia.
    + intros [H1 H3].
      rewrite (sub_scan_no_occurrence pattern1 repl1 out H1).
      now rewrite (sub_scan_no_occurrence pattern3 repl3 out H3).
  - intros bs fin -> Hf. rewrite (fix_mocks_free _ _ Hf). cbn [bind].
    rewrite (fix_mocks_free _ _ (doc_free_fix_stmt _ _ Hf)). f_equal.
    rewrite map_map. f_equal. apply map_ext.
    intros [t s]. cbn [on_stmt]. now rewrite fix_stmt_twice.
Qed.

Lemma pass_idempotent_exactly_witness :
  fix_mocks recorder_file = Ok recorder_file_fixed /\
  recorder_file = render recorder_blocks closing /\
  doc_free recorder_blocks closing = true /\
  occurs pattern1 recorder_file_fixed = false /\
  occurs pattern3 recorder_file_fixed = false /\
  (d1 <- fix_mocks recorder_file ;; fix_mocks d1) = fix_mocks recorder_file.
Proof.
  assert (H : fix_mocks recorder_file = Ok recorder_file_fixed)
    by (vm_compute; reflexivity).
  assert (Hr : recorder_file = render recorder_blocks closing)
    by (vm_compute; reflexivity).
  assert (Hf : doc_free recorder_blocks closing = true)
    by (vm_compute; reflexivity).
  pose proof (pass_idempotent_exactly recorder_file recorder_file_fixed H)
    as [Hiff Hdoc].
  pose proof (Hdoc recorder_blocks closing Hr Hf) as E.
  destruct (proj1 Hiff E) as [H1 H3].
  split; [exact H|]. split; [exact Hr|]. split; [exact Hf|].
  split; [exact H1|]. split; [exact H3|exact E].
Defined.

(** ** What the rules rewrite *)

(** X1.  Rule 1 rewrites nothing but duplicated calls: whatever pattern 1
    matches is whitespace, the duplicated head, a name, a type, a method
    and at most one argument list, and the template writes the single
    call for the same name, type and method behind one tab. *)
Theorem rule1_rewrites_duplicated_calls s rest g :
  match_at pattern1 s = Some (rest, g) ->
  exists ws N T M oa,
    ws <> [] /\ forallb is_space ws = true /\
    field dq N = true /\ field rparen T = true /\ field rparen M = true /\
    arg_ok oa = true /\
    s = dup_text ws N T M oa ++ rest /\
    expand repl1 g = joined_text N T M oa.
Proof.
  intros H. apply match_at_sound in H. destruct H as (w & -> & Hd).
  apply den_pattern1_caps in Hd.
  destruct Hd as (ws & N & T & M & oa & Hne & Hws & HN & HT & HM & Ha
                  & -> & ->).
  exists ws, N, T, M, oa. repeat (split; [assumption|]).
  split; [reflexivity|]. apply expand_repl1.
Qed.

Lemma rule1_rewrites_duplicated_calls_witness :
  match_at pattern1 (foo_dup_arg ++ closing)
  = Some (closing, caps_dup Foo Bar Foo (Some (chars "arg0"))) /\
  exists ws N T M oa,
    ws <> [] /\ forallb is_space ws = true /\
    field dq N = true /\ field rparen T = true /\ field rparen M = true /\
    arg_ok oa = true /\
    foo_dup_arg ++ closing = dup_text ws N T M oa ++ closing /\
    expand repl1 (caps_dup Foo Bar Foo (Some (chars "arg0")))
    = joined_text N T M oa.
Proof.
  assert (H : match_at pattern1 (foo_dup_arg ++ closing)
              = Some (closing, caps_dup Foo Bar Foo (Some (chars "arg0"))))
    by (vm_compute; reflexivity).
  split; [exact H|].
  exact (rule1_rewrites_duplicated_calls _ _ _ H).
Defined.

(** X2.  Rule 3 rewrites nothing but tab-indented calls without trailing
    argument, and all it changes in them is the call target: the name,
    the type and the method are written back as they were. *)
Theorem rule3_rewrites_plain_calls s rest g :
  match_at pattern3 s = Some (rest, g) ->
  exists N T M,
    field dq N = true /\ field rparen T = true /\ field rparen M = true /\
    s = call_text N T M ++ rest /\
    expand repl3 g = noargs_text N T M.
Proof.
  intros H. apply match_at_sound in H. destruct H as (w & -> & Hd).
  apply den_pattern3 in Hd.
  destruct Hd as (N & T & M & HN & HT & HM & -> & ->).
  exists N, T, M. repeat (split; [assumption|]).
  split; [reflexivity|]. now apply expand_repl3.
Qed.

Lemma rule3_rewrites_plain_calls_witness :
  match_at pattern3 (call_text Foo Bar Foo ++ closing)
  = Some (closing, caps_ntm Foo Bar Foo) /\
  exists N T M,
    field dq N = true /\ field rparen T = true /\ field rparen M = true /\
    call_text Foo Bar Foo ++ closing = call_text N T M ++ closing /\
    expand repl3 (caps_ntm Foo Bar Foo) = noargs_text N T M.
Proof.
  assert (H : match_at pattern3 (call_text Foo Bar Foo ++ closing)
              = Some (closing, caps_ntm Foo Bar Foo))
    by (vm_compute; reflexivity).
  split; [exact H|].
  exact (rule3_rewrites_plain_calls _ _ _ H).
Defined.

(** X3.  A document without any double quote, and a document without any
    whitespace, comes out of the pass unchanged: every match needs both a
    quoted name and whitespace in front of [return]. *)
Theorem no_quote_or_space_unchanged (d : document) :
  no_dq d = true \/ no_space d = true -> fix_mocks d = Ok d.
Proof.
  intros [H|H]; rewrite fix_mocks_scan; f_equal.
  - rewrite (scan_final pattern1 repl1 d (or_introl eq_refl) H).
    apply (scan_final pattern3 repl3 d (or_intror eq_refl) H).
  - assert (E : forall r t, r = pattern1 \/ r = pattern3 ->
                            sub_scan r t 0 d = d).
    { intros r t Hr. rewrite <- (app_nil_r d) at 1.
      rewrite sub_scan_no_start by now apply no_start_no_space.
      cbn [sub_scan]. apply app_nil_r. }
    rewrite (E pattern1 repl1 (or_introl eq_refl)).
    apply (E pattern3 repl3 (or_intror eq_refl)).
Qed.

Lemma no_quote_or_space_unchanged_witness :
  no_dq foo_method = true /\ fix_mocks foo_method = Ok foo_method.
Proof.
  assert (H : no_dq foo_method = true) by (vm_compute; reflexivity).
  split; [exact H|].
  exact (no_quote_or_space_unchanged foo_method (or_introl H)).
Defined.

(** X4.  Text without whitespace at the front of a document is copied,
    and the pass treats what follows as if the text were not there. *)
Theorem pass_skips_leading_text pre rest out :
  no_space pre = true ->
  fix_mocks rest = Ok out ->
  fix_mocks (pre ++ rest) = Ok (pre ++ out).
Proof.
  intros Hpre H. rewrite fix_mocks_scan in *.
  assert (E : out = sub_scan pattern3 repl3 0 (sub_scan pattern1 repl1 0 rest))
    by congruence.
  subst out. f_equal.
  rewrite (sub_scan_no_start pattern1 repl1 pre rest)
    by (apply no_start_no_space; auto).
  apply sub_scan_no_start. apply no_start_no_space; auto.
Qed.

Lemma pass_skips_leading_text_witness :
  no_space (chars "{}//") = true /\
  fix_mocks (tab :: foo_dup_line) = Ok (noargs_text Foo Bar Foo) /\
  fix_mocks (chars "{}//" ++ tab :: foo_dup_line)
  = Ok (chars "{}//" ++ noargs_text Foo Bar Foo).
Proof.
  assert (H1 : no_space (chars "{}//") = true) by (vm_compute; reflexivity).
  assert (H2 : fix_mocks (tab :: foo_dup_line) = Ok (noargs_text Foo Bar Foo))
    by (vm_compute; reflexivity).
  split; [exact H1|]. split; [exact H2|].
  exact (pass_skips_leading_text _ _ _ H1 H2).
Defined.

(** X5.  Rule 1 never makes a document longer, and a document in which
    pattern 1 occurs gets shorter by 42 characters or more: the
    duplicated head and the whitespace give way to one tab and one
    head. *)
Theorem rule1_shortens (d : document) :
  exists d1,
    rule1 d = Ok d1 /\
    length d1 <= length d /\
    (occurs pattern1 d = true -> length d1 + 42 <= length d).
Proof.
  exists (sub_scan pattern1 repl1 0 d). split; [apply rule1_scan|].
  apply (sub_scan_rel pattern1 repl1 nonnull_pattern1
           (fun s o => length o <= length s /\
                       (occurs pattern1 s = true ->
                        length o + 42 <= length s))).
  - split; [reflexivity|]. intros H. discriminate.
  - intros c s o Hm [IH1 IH2]. cbn [length occurs]. rewrite Hm.
    split; [lia|]. intros H. specialize (IH2 H). lia.
  - intros s rest g o Hm [IH1 _].
    apply match_at_sound in Hm. destruct Hm as (w & -> & Hd).
    apply den_pattern1_caps in Hd.
    destruct Hd as (ws & N & T & M & oa & Hne & _ & _ & _ & _ & _ & -> & ->).
    rewrite expand_repl1, !length_app.
    pose proof (length_dup_joined ws N T M oa Hne). lia.
Qed.

Lemma rule1_shortens_witness :
  occurs pattern1 (tab :: foo_dup_line) = true /\
  exists d1,
    rule1 (tab :: foo_dup_line) = Ok d1 /\
    length d1 + 42 <= length (tab :: foo_dup_line).
Proof.
  assert (H : occurs pattern1 (tab :: foo_dup_line) = true)
    by (vm_compute; reflexivity).
  split; [exact H|].
  destruct (rule1_shortens (tab :: foo_dup_line)) as (d1 & E & _ & Hlen).
  exists d1. split; [exact E|exact (Hlen H)].
Defined.

(** X6.  Rule 3 lengthens a document by six characters, the length of
    [NoArgs], for every match it replaces: the result is longer by six
    times the number of substitutions [count_scan] counts, and that
    number is zero exactly when pattern 3 occurs nowhere. *)
Theorem rule3_adds_six (d : document) :
  exists d3,
    rule3 d = Ok d3 /\
    length d3 = length d + 6 * count_scan pattern3 0 d /\
    (count_scan pattern3 0 d = 0 <-> occurs pattern3 d = false).
Proof.
  exists (sub_scan pattern3 repl3 0 d).
  split; [apply rule3_scan|]. split; [apply rule3_length|].
  apply (count_scan_occurs pattern3 repl3 nonnull_pattern3).
Qed.

Lemma rule3_adds_six_witness :
  count_scan pattern3 0 (call_text Foo Bar Foo ++ nl :: call_text Bar Foo Bar)
  = 2 /\
  exists d3,
    rule3 (call_text Foo Bar Foo ++ nl :: call_text Bar Foo Bar) = Ok d3 /\
    length d3
    = length (call_text Foo Bar Foo ++ nl :: call_text Bar Foo Bar) + 6 * 2.
Proof.
  assert (H : count_scan pattern3 0
                (call_text Foo Bar Foo ++ nl :: call_text Bar Foo Bar) = 2)
    by (vm_compute; reflexivity).
  split; [exact H|].
  destruct (rule3_adds_six
              (call_text Foo Bar Foo ++ nl :: call_text Bar Foo Bar))
    as (d3 & E & E' & _).
  exists d3. split; [exact E|]. rewrite H in E'. exact E'.
Defined.

(** X7.  The pass invents no text: every character of its output is a
    character of its input or of the literal text of the templates of
    rule 1 and rule 3. *)
Theorem pass_adds_no_characters d out c :
  fix_mocks d = Ok out ->
  In c out ->
  In c d \/ In c (template_chars repl1) \/ In c (template_chars repl3).
Proof.
  intros H Hc. rewrite fix_mocks_scan in H.
  assert (E : out = sub_scan pattern3 repl3 0 (sub_scan pattern1 repl1 0 d))
    by congruence.
  subst out.
  apply (sub_scan_chars _ _ _ _ nonnull_pattern3) in Hc.
  destruct Hc as [Hc|Hc]; [|now right; right].
  apply (sub_scan_chars _ _ _ _ nonnull_pattern1) in Hc.
  destruct Hc as [Hc|Hc]; [now left|now right; left].
Qed.

Lemma pass_adds_no_characters_witness :
  fix_mocks (tab :: foo_dup_line) = Ok (noargs_text Foo Bar Foo) /\
  In 78%N (noargs_text Foo Bar Foo) /\
  (In 78%N (tab :: foo_dup_line) \/ In 78%N (template_chars repl1)
   \/ In 78%N (template_chars repl3)).
Proof.
  assert (H1 : fix_mocks (tab :: foo_dup_line) = Ok (noargs_text Foo Bar Foo))
    by (vm_compute; reflexivity).
  assert (H2 : In 78%N (noargs_text Foo Bar Foo)).
  { assert (E : existsb (N.eqb 78%N) (noargs_text Foo Bar Foo) = true)
      by (vm_compute; reflexivity).
    apply existsb_exists in E. destruct E as (x & Hx & Ex).
    apply N.eqb_eq in Ex. now subst x. }
  split; [exact H1|]. split; [exact H2|].
  exact (pass_adds_no_characters _ _ _ H1 H2).
Defined.

(** X8.  On a document made of call statements the pass rewrites each
    statement by [fix_stmt] and copies the texts: duplicated calls and
    single calls without argument become calls of the no-argument
    target, duplicated calls with argument become joined calls, the
    other statements stay.  In the output neither pattern 1 nor pattern 3
    occurs any more. *)
Theorem pass_on_statements bs fin :
  doc_ok bs fin = true ->
  fix_mocks (render bs fin) = Ok (render (map (on_stmt fix_stmt) bs) fin) /\
  occurs pattern1 (render (map (on_stmt fix_stmt) bs) fin) = false /\
  occurs pattern3 (render (map (on_stmt fix_stmt) bs) fin) = false.
Proof.
  intros H. split; [now apply fix_mocks_render|].
  pose proof (doc_ok_fix_stmt _ _ H) as H'.
  pose proof (settled_fix_stmt bs) as Hs.
  split; (apply no_start_occurs; [reflexivity|]);
    apply no_start_settled; auto.
Qed.

Lemma pass_on_statements_witness :
  doc_ok sample_blocks closing = true /\
  fix_mocks (render sample_blocks closing)
  = Ok (render (map (on_stmt fix_stmt) sample_blocks) closing) /\
  occurs pattern1 (render (map (on_stmt fix_stmt) sample_blocks) closing)
  = false /\
  occurs pattern3 (render (map (on_stmt fix_stmt) sample_blocks) closing)
  = false.
Proof.
  assert (H : doc_ok sample_blocks closing = true)
    by (vm_compute; reflexivity).
  split; [exact H|].
  exact (pass_on_statements sample_blocks closing H).
Defined.

(** ** Reading and writing in text mode *)

Section LineEnds.




End LineEnds.



(** X15.  Rule 2 is dead code in the pass: the script without its second
    substitution computes the same result on every document. *)
Theorem pass_without_rule2 (d : document) :
  fix_mocks d = (content <- rule1 d ;; rule3 content).
Proof.
  unfold fix_mocks. destruct (rule1 d) as [d1|]; [|reflexivity].
  cbn [bind]. now rewrite rule2_identity.
Qed.
